(** * Message.ts: the cached chat-message entity

    A shallow embedding of [packages/guilded.js/lib/structures/Message.ts]:
    the [Message] class with its in-place partial update [_update], its
    derived accessors and its action methods, followed by the properties the
    specification states about them.

    Objects are heap cells: a [Message] instance is a location in [heap], and
    the per-type caches of the client map keys to locations, so that "the same
    instance" is equality of locations.  Methods run in a small state and
    exception monad over the [World]. *)

From Stdlib Require Import ZArith Ascii String.
From stdpp Require Import gmap strings list fin_maps.

Open Scope string_scope.
Open Scope Z_scope.

Set Warnings "-register-all".

(** ** The fragment of JavaScript the class relies on *)

Module JS.

(** A JS number as the class meets it: [Date.parse] yields an integral time
    value or [NaN]; emote ids are integers.  Fractions are not modelled. *)
Inductive Number : Type :=
| NaN
| Finite (z : Z).

Inductive Value : Type :=
| Undefined
| Null
| Boolean (b : bool)
| Num (n : Number)
| Str (s : string)
| Array (items : list Value)
| Object (fields : list (string * Value)).

(** [typeof v] *)
Definition typeof (v : Value) : string :=
  match v with
  | Undefined => "undefined"
  | Null => "object"
  | Boolean _ => "boolean"
  | Num _ => "number"
  | Str _ => "string"
  | Array _ | Object _ => "object"
  end.

(** [ToBoolean]: the falsy values are undefined, null, false, 0, NaN and
    the empty string. *)
Definition ToBoolean (v : Value) : bool :=
  match v with
  | Undefined | Null => false
  | Boolean b => b
  | Num NaN => false
  | Num (Finite z) => negb (z =? 0)
  | Str s => negb (String.eqb s "")
  | Array _ | Object _ => true
  end.

(** A [string | null] field seen as a value. *)
Definition nullable (o : option string) : Value :=
  match o with
  | Some s => Str s
  | None => Null
  end.

(** A [number | null] field seen as a value. *)
Definition nullable_number (o : option Number) : Value :=
  match o with
  | Some n => Num n
  | None => Null
  end.

(** What [x ? … : …] knows of a [string | null] field [x] in its first
    branch: the string, when [x] is truthy. *)
Definition narrow (o : option string) : option string :=
  match o with
  | Some s => if ToBoolean (Str s) then Some s else None
  | None => None
  end.

(** [a ?? b] on a [T | null] field. *)
Definition coalesce {A : Type} (a : option A) (b : A) : A :=
  match a with
  | Some x => x
  | None => b
  end.

(** A plain object received from the gateway, as a map from own keys to
    values.  [has_key k o] is [k in o]; [prop o k] is [o.k], which is
    [undefined] for a missing key. *)
Definition has_key (k : string) (o : gmap string Value) : bool :=
  bool_decide (is_Some (o !! k)).

Definition prop (o : gmap string Value) (k : string) : Value :=
  default Undefined (o !! k).

(** [{...o, k: v}] on an object literal kept as an ordered field list: an
    existing key keeps its place and takes the new value, a new key goes
    last. *)
Fixpoint spread_set (k : string) (v : Value) (o : list (string * Value))
  : list (string * Value) :=
  match o with
  | [] => [(k, v)]
  | (k', v') :: o' =>
      if String.eqb k' k then (k', v) :: o' else (k', v') :: spread_set k v o'
  end.

(** *** A reference model of [Date.parse]

    The class is parametric in [Date.parse] (see [Imports]).  For concrete
    runs we use the one format ECMAScript fixes and the gateway emits, the
    complete UTC form [YYYY-MM-DDTHH:mm:ss.sssZ]; any other argument is
    outside this model and is given [NaN] here. *)

Definition digit (c : ascii) : option Z :=
  let n := Z.of_nat (nat_of_ascii c) in
  if (48 <=? n) && (n <=? 57) then Some (n - 48) else None.

Fixpoint digits (acc : Z) (cs : list ascii) : option Z :=
  match cs with
  | [] => Some acc
  | c :: cs' =>
      match digit c with
      | Some d => digits (10 * acc + d) cs'
      | None => None
      end
  end.

Definition leap_year (y : Z) : bool :=
  ((y mod 4 =? 0) && negb (y mod 100 =? 0)) || (y mod 400 =? 0).

Definition days_in_month (y m : Z) : Z :=
  if m =? 2 then (if leap_year y then 29 else 28)
  else if (m =? 4) || (m =? 6) || (m =? 9) || (m =? 11) then 30
  else 31.

(** Days from 1970-01-01 to the given civil date (proleptic Gregorian). *)
Definition days_from_civil (y m d : Z) : Z :=
  let y' := if m <=? 2 then y - 1 else y in
  let era := y' / 400 in
  let yoe := y' - era * 400 in
  let mp := (m + 9) mod 12 in
  let doy := (153 * mp + 2) / 5 + d - 1 in
  let doe := yoe * 365 + yoe / 4 - yoe / 100 + doy in
  era * 146097 + doe - 719468.

Definition make_time (y mo d h mi s ms : Z) : option Z :=
  if (1 <=? mo) && (mo <=? 12) && (1 <=? d) && (d <=? days_in_month y mo)
     && (h <=? 23) && (mi <=? 59) && (s <=? 59)
  then Some ((((days_from_civil y mo d * 24 + h) * 60 + mi) * 60 + s) * 1000 + ms)
  else None.

Definition parse_iso (s : string) : option Z :=
  match list_ascii_of_string s with
  | [y1; y2; y3; y4; "-"%char; mo1; mo2; "-"%char; d1; d2; "T"%char;
     h1; h2; ":"%char; mi1; mi2; ":"%char; s1; s2; "."%char; f1; f2; f3;
     "Z"%char] =>
      y ← digits 0 [y1; y2; y3; y4];
      mo ← digits 0 [mo1; mo2];
      d ← digits 0 [d1; d2];
      h ← digits 0 [h1; h2];
      mi ← digits 0 [mi1; mi2];
      sec ← digits 0 [s1; s2];
      ms ← digits 0 [f1; f2; f3];
      make_time y mo d h mi sec ms
  | _ => None
  end.

Definition Date_parse_iso (v : Value) : Number :=
  match v with
  | Str s =>
      match parse_iso s with
      | Some t => Finite t
      | None => NaN
      end
  | _ => NaN
  end.

(** A [Date] object, by its time value. *)
Record Date : Type := new_Date { time_value : Number }.

(** The state a promise ends in, and a promise as the state it ends in for
    each course [E] of later events. *)
Inductive Outcome (A : Type) : Type :=
| Pending
| Fulfilled (a : A)
| Rejected (reason : Value).
Arguments Pending {A}.
Arguments Fulfilled {A} a.
Arguments Rejected {A} reason.

Definition Promise (E A : Type) : Type := E → Outcome A.

(** [p.then(f)] with a callback that returns normally: a rejection of [p]
    passes through, and nothing happens while [p] is pending. *)
Definition then_ {E A B : Type} (p : Promise E A) (f : A → B) : Promise E B :=
  λ e, match p e with
       | Pending => Pending
       | Fulfilled a => Fulfilled (f a)
       | Rejected r => Rejected r
       end.

End JS.

(** ** What the class imports *)

(** The calls the action methods make on the managers and on the REST router:
    [client.messages.update], [client.messages.send], [client.messages.delete]
    and [client.rest.router.reactions.channelMessageReaction{Create,Delete}]. *)
Inductive Request : Type :=
| messages_update (channelId messageId : string) (content : JS.Value)
| messages_send (channelId : string) (content : JS.Value)
| messages_delete (channelId messageId : string)
| channelMessageReactionCreate (channelId messageId : string) (emoteId : JS.Number)
| channelMessageReactionDelete (channelId messageId : string) (emoteId : JS.Number).

(** ** Method bodies: state and exceptions

    What is thrown: a [TypeError], or any other exception, by its name.
    [NoObject] is not a JS error: it marks a run on a location that holds no
    message, which no caller of a method can produce. *)
Inductive Error : Type :=
| TypeError
| Exception (name : string)
| NoObject.

Inductive Completion (A : Type) : Type :=
| Normal (a : A)
| Throw (e : Error).
Arguments Normal {A} a.
Arguments Throw {A} e.

(** Collaborators that live outside [Message.ts], kept abstract: the [Embed]
    class, whose constructor returns an embed or throws, the built-in
    [Date.parse], the key builder and the content normaliser of [../util],
    and the managers with the REST router.  The
    last are an outbound interface that takes a request and hands back a
    future (sections 4.5 and 6 of the specification), while cached entities
    are written from the event-ingestion path only (section 5); so
    [dispatch] works on the state [Remote] of that layer alone, and the
    promise it returns settles, if it does, according to the later
    [Events]. *)
Class Imports : Type := {
  Embed : Type;
  new_Embed : JS.Value → Completion Embed;
  Date_parse : JS.Value → JS.Number;
  buildMemberKey : string → string → string;
  resolveContentToData : JS.Value → list (string * JS.Value);
  Remote : Type;
  Events : Type;
  Response : Type;
  dispatch : Request → Remote → JS.Promise Events Response * Remote
}.

(** Object identity. *)
Abbreviation loc := positive.

Inductive MessageType : Type :=
| Default
| System.

Section MessageClass.

Context `{Imports}.

(** ** The instance state

    [id] comes from [Base]; the other fields are the ones the class declares,
    with [T | null] as [option T].  [content] and [mentions] hold whatever
    value the payload carried, since [_update] stores it as it comes
    ([mentions] is [undefined] until set). *)
Record Message : Type := {
  id : string;
  channelId : string;
  serverId : option string;
  groupId : option string;
  type : MessageType;
  content : JS.Value;
  mentions : JS.Value;
  replyMessageIds : list string;
  isPrivate : bool;
  isSilent : bool;
  createdById : string;
  isReply : bool;
  createdByWebhookId : option string;
  _createdAt : JS.Number;
  _updatedAt : option JS.Number;
  deleted : bool;
  _deletedAt : option JS.Number;
  embeds : list Embed
}.

(** Assignments [this.f = v] to the six fields that are not [readonly]. *)
Definition set_content (v : JS.Value) (m : Message) : Message :=
  {| id := id m; channelId := channelId m; serverId := serverId m;
     groupId := groupId m; type := type m; content := v;
     mentions := mentions m; replyMessageIds := replyMessageIds m;
     isPrivate := isPrivate m; isSilent := isSilent m;
     createdById := createdById m; isReply := isReply m;
     createdByWebhookId := createdByWebhookId m; _createdAt := _createdAt m;
     _updatedAt := _updatedAt m; deleted := deleted m;
     _deletedAt := _deletedAt m; embeds := embeds m |}.

Definition set_mentions (v : JS.Value) (m : Message) : Message :=
  {| id := id m; channelId := channelId m; serverId := serverId m;
     groupId := groupId m; type := type m; content := content m;
     mentions := v; replyMessageIds := replyMessageIds m;
     isPrivate := isPrivate m; isSilent := isSilent m;
     createdById := createdById m; isReply := isReply m;
     createdByWebhookId := createdByWebhookId m; _createdAt := _createdAt m;
     _updatedAt := _updatedAt m; deleted := deleted m;
     _deletedAt := _deletedAt m; embeds := embeds m |}.

Definition set__updatedAt (v : option JS.Number) (m : Message) : Message :=
  {| id := id m; channelId := channelId m; serverId := serverId m;
     groupId := groupId m; type := type m; content := content m;
     mentions := mentions m; replyMessageIds := replyMessageIds m;
     isPrivate := isPrivate m; isSilent := isSilent m;
     createdById := createdById m; isReply := isReply m;
     createdByWebhookId := createdByWebhookId m; _createdAt := _createdAt m;
     _updatedAt := v; deleted := deleted m;
     _deletedAt := _deletedAt m; embeds := embeds m |}.

Definition set_deleted (v : bool) (m : Message) : Message :=
  {| id := id m; channelId := channelId m; serverId := serverId m;
     groupId := groupId m; type := type m; content := content m;
     mentions := mentions m; replyMessageIds := replyMessageIds m;
     isPrivate := isPrivate m; isSilent := isSilent m;
     createdById := createdById m; isReply := isReply m;
     createdByWebhookId := createdByWebhookId m; _createdAt := _createdAt m;
     _updatedAt := _updatedAt m; deleted := v;
     _deletedAt := _deletedAt m; embeds := embeds m |}.

Definition set__deletedAt (v : option JS.Number) (m : Message) : Message :=
  {| id := id m; channelId := channelId m; serverId := serverId m;
     groupId := groupId m; type := type m; content := content m;
     mentions := mentions m; replyMessageIds := replyMessageIds m;
     isPrivate := isPrivate m; isSilent := isSilent m;
     createdById := createdById m; isReply := isReply m;
     createdByWebhookId := createdByWebhookId m; _createdAt := _createdAt m;
     _updatedAt := _updatedAt m; deleted := deleted m;
     _deletedAt := v; embeds := embeds m |}.

Definition set_embeds (v : list Embed) (m : Message) : Message :=
  {| id := id m; channelId := channelId m; serverId := serverId m;
     groupId := groupId m; type := type m; content := content m;
     mentions := mentions m; replyMessageIds := replyMessageIds m;
     isPrivate := isPrivate m; isSilent := isSilent m;
     createdById := createdById m; isReply := isReply m;
     createdByWebhookId := createdByWebhookId m; _createdAt := _createdAt m;
     _updatedAt := _updatedAt m; deleted := deleted m;
     _deletedAt := _deletedAt m; embeds := v |}.

(** ** The world a method runs in

    The heap of [Message] instances; the client shared by all of them, given
    by its four caches ([client.users.cache] and so on, from key to cached
    instance); the state of the remote layer; and the calls made on it so far,
    oldest first. *)
Record World : Type := {
  heap : gmap loc Message;
  users_cache : gmap string loc;
  members_cache : gmap string loc;
  channels_cache : gmap string loc;
  servers_cache : gmap string loc;
  remote : Remote;
  outbox : list Request
}.

Definition set_heap (h : gmap loc Message) (w : World) : World :=
  {| heap := h; users_cache := users_cache w; members_cache := members_cache w;
     channels_cache := channels_cache w; servers_cache := servers_cache w;
     remote := remote w; outbox := outbox w |}.

Definition sent (r : Request) (rm : Remote) (w : World) : World :=
  {| heap := heap w; users_cache := users_cache w;
     members_cache := members_cache w; channels_cache := channels_cache w;
     servers_cache := servers_cache w; remote := rm;
     outbox := outbox w ++ [r] |}.

(** A method body reads and writes the world, and returns or throws. *)
Definition M (A : Type) : Type := World → Completion A * World.

#[global] Instance M_ret : MRet M := λ A a w, (Normal a, w).

#[global] Instance M_bind : MBind M := λ A B f c w,
  match c w with
  | (Normal a, w') => f a w'
  | (Throw e, w') => (Throw e, w')
  end.

Definition throw {A : Type} (e : Error) : M A := λ w, (Throw e, w).

(** [this.f] *)
Definition load {A : Type} (this : loc) (f : Message → A) : M A := λ w,
  match heap w !! this with
  | Some m => (Normal (f m), w)
  | None => (Throw NoObject, w)
  end.

(** [this.f = v], with [f] and [v] given by the setter *)
Definition store (this : loc) (set : Message → Message) : M unit := λ w,
  match heap w !! this with
  | Some m => (Normal (), set_heap (<[this := set m]> (heap w)) w)
  | None => (Throw NoObject, w)
  end.

(** [this.client.….cache] *)
Definition client {A : Type} (cache : World → A) : M A := λ w, (Normal (cache w), w).

(** [if (c) { body }] *)
Definition when_ (c : bool) (body : M unit) : M unit :=
  if c then body else mret ().

(** A call on the remote layer: it is recorded, and the layer moves on. *)
Definition call (r : Request) : M (JS.Promise Events Response) := λ w,
  let '(p, rm) := dispatch r (remote w) in (Normal p, sent r rm w).

(** ** [_update] *)

(** An expression that touches no state: it completes as [c] does. *)
Definition completes {A : Type} (c : Completion A) : M A := λ w, (c, w).

(** [xs.map((x) => new Embed(x))]: the elements are taken in order, and the
    first [new Embed] that throws ends the map with its exception. *)
Fixpoint map_new_Embed (xs : list JS.Value) : Completion (list Embed) :=
  match xs with
  | [] => Normal []
  | x :: rest =>
      match new_Embed x with
      | Normal e =>
          match map_new_Embed rest with
          | Normal es => Normal (e :: es)
          | Throw err => Throw err
          end
      | Throw err => Throw err
      end
  end.

(** [data.embeds?.map((x) => new Embed(x)) ?? []]: the optional chain stops at
    [undefined] or [null], where [??] supplies the empty array; an array is
    mapped; anything else has no [map] to call. *)
Definition map_embeds (v : JS.Value) : M (list Embed) :=
  match v with
  | JS.Undefined | JS.Null => mret []
  | JS.Array xs => completes (map_new_Embed xs)
  | _ => throw TypeError
  end.

Definition _update (this : loc) (data : gmap string JS.Value) : M loc :=
  when_ (JS.has_key "content" data
         && negb (String.eqb (JS.typeof (JS.prop data "content")) "undefined"))
    (store this (set_content (JS.prop data "content")));;
  when_ (JS.has_key "mentions" data)
    (store this (set_mentions (JS.prop data "mentions")));;
  when_ (JS.has_key "updatedAt" data)
    (store this (set__updatedAt
       (if JS.ToBoolean (JS.prop data "updatedAt")
        then Some (Date_parse (JS.prop data "updatedAt"))
        else None)));;
  when_ (JS.has_key "deletedAt" data)
    (store this (set_deleted true);;
     store this (set__deletedAt (Some (Date_parse (JS.prop data "deletedAt")))));;
  when_ (JS.has_key "embeds" data)
    (es ← map_embeds (JS.prop data "embeds");
     store this (set_embeds es));;
  mret this.

(** ** The constructor

    The creation payload, with the fields the constructor and [_update] read.
    Its type belongs to the API package; an optional field that is left out is
    [None].  [object_of] is the same payload as the plain object that
    [_update] inspects, with a key for each field that is there. *)
Record ChatMessagePayload : Type := {
  payload_id : string;
  payload_type : string;
  payload_serverId : option string;
  payload_groupId : option string;
  payload_channelId : string;
  payload_content : option string;
  payload_embeds : option (list JS.Value);
  payload_replyMessageIds : option (list string);
  payload_isPrivate : option bool;
  payload_isSilent : option bool;
  payload_mentions : option JS.Value;
  payload_createdAt : string;
  payload_createdBy : string;
  payload_createdByWebhookId : option string;
  payload_updatedAt : option string
}.

Definition with_key {A : Type} (k : string) (inj : A → JS.Value) (o : option A)
    (obj : gmap string JS.Value) : gmap string JS.Value :=
  match o with
  | Some a => <[k := inj a]> obj
  | None => obj
  end.

Definition object_of (data : ChatMessagePayload) : gmap string JS.Value :=
  with_key "serverId" JS.Str (payload_serverId data)
  (with_key "groupId" JS.Str (payload_groupId data)
  (with_key "content" JS.Str (payload_content data)
  (with_key "embeds" JS.Array (payload_embeds data)
  (with_key "replyMessageIds" (λ l, JS.Array (JS.Str <$> l)) (payload_replyMessageIds data)
  (with_key "isPrivate" JS.Boolean (payload_isPrivate data)
  (with_key "isSilent" JS.Boolean (payload_isSilent data)
  (with_key "mentions" (λ v, v) (payload_mentions data)
  (with_key "createdByWebhookId" JS.Str (payload_createdByWebhookId data)
  (with_key "updatedAt" JS.Str (payload_updatedAt data)
  (<["id" := JS.Str (payload_id data)]>
  (<["type" := JS.Str (payload_type data)]>
  (<["channelId" := JS.Str (payload_channelId data)]>
  (<["createdAt" := JS.Str (payload_createdAt data)]>
  (<["createdBy" := JS.Str (payload_createdBy data)]> ∅)))))))))))))).

(** [new Message(client, data)]: a fresh instance takes the field
    initialisers ([deleted = false], [_deletedAt = null], [embeds = []]) and
    the constructor's assignments, then [_update(data)] runs on it.
    [super(client, data)] is [Base], which keeps [data.id] as [id].  When
    [_update] throws, so does the constructor, and the instance stays behind
    with no reference to it. *)
Definition new_Message (data : ChatMessagePayload) : M loc := λ w,
  let this := fresh (dom (heap w)) in
  let m :=
    {| id := payload_id data;
       isReply := bool_decide (is_Some (payload_replyMessageIds data));
       channelId := payload_channelId data;
       groupId := payload_groupId data;
       content := JS.Str (JS.coalesce (payload_content data) "");
       serverId := payload_serverId data;
       replyMessageIds := JS.coalesce (payload_replyMessageIds data) [];
       createdById := payload_createdBy data;
       createdByWebhookId := payload_createdByWebhookId data;
       _createdAt := Date_parse (JS.Str (payload_createdAt data));
       _updatedAt := None;
       isPrivate := JS.coalesce (payload_isPrivate data) false;
       isSilent := JS.coalesce (payload_isSilent data) false;
       type := if String.eqb (payload_type data) "system" then System else Default;
       mentions := JS.Undefined;
       deleted := false;
       _deletedAt := None;
       embeds := [] |} in
  _update this (object_of data) (set_heap (<[this := m]> (heap w)) w).

(** ** Derived accessors *)

Definition createdAt (this : loc) : M JS.Date :=
  t ← load this _createdAt;
  mret (JS.new_Date t).

Definition updatedAt (this : loc) : M (option JS.Date) :=
  t ← load this _updatedAt;
  match t with
  | Some n => if JS.ToBoolean (JS.Num n) then mret (Some (JS.new_Date n)) else mret None
  | None => mret None
  end.

Definition deletedAt (this : loc) : M (option JS.Date) :=
  t ← load this _deletedAt;
  match t with
  | Some n => if JS.ToBoolean (JS.Num n) then mret (Some (JS.new_Date n)) else mret None
  | None => mret None
  end.

Definition url (this : loc) : M string :=
  sid ← load this serverId;
  if negb (JS.ToBoolean (JS.nullable sid)) then mret ""
  else
    cid ← load this channelId;
    i ← load this id;
    mret ("https://www.guilded.gg/chat/" +:+ cid +:+ "?messageId=" +:+ i).

(** [cache.get(k) ?? null]: the cached instance, or [None] for [null]. *)
Definition author (this : loc) : M (option loc) :=
  k ← load this createdById;
  cache ← client users_cache;
  mret (cache !! k).

Definition authorId (this : loc) : M string :=
  wid ← load this createdByWebhookId;
  uid ← load this createdById;
  mret (JS.coalesce wid uid).

Definition member (this : loc) : M (option loc) :=
  sid ← load this serverId;
  match JS.narrow sid with
  | Some s =>
      a ← authorId this;
      cache ← client members_cache;
      mret (cache !! buildMemberKey s a)
  | None => mret None
  end.

Definition channel (this : loc) : M (option loc) :=
  k ← load this channelId;
  cache ← client channels_cache;
  mret (cache !! k).

Definition server (this : loc) : M (option loc) :=
  sid ← load this serverId;
  match JS.narrow sid with
  | Some s =>
      cache ← client servers_cache;
      mret (cache !! s)
  | None => mret None
  end.

(** ** Action methods *)

Definition edit (this : loc) (newContent : JS.Value) : M (JS.Promise Events loc) :=
  cid ← load this channelId;
  i ← load this id;
  p ← call (messages_update cid i newContent);
  mret (JS.then_ p (λ _, this)).

Definition send (this : loc) (content : JS.Value) : M (JS.Promise Events Response) :=
  cid ← load this channelId;
  call (messages_send cid content).

Definition reply (this : loc) (content : JS.Value) : M (JS.Promise Events Response) :=
  cid ← load this channelId;
  i ← load this id;
  call (messages_send cid
          (JS.Object (JS.spread_set "replyMessageIds" (JS.Array [JS.Str i])
                        (resolveContentToData content)))).

Definition addReaction (this : loc) (emoteId : JS.Number) : M (JS.Promise Events unit) :=
  cid ← load this channelId;
  i ← load this id;
  p ← call (channelMessageReactionCreate cid i emoteId);
  mret (JS.then_ p (λ _, ())).

Definition deleteReaction (this : loc) (emoteId : JS.Number) : M (JS.Promise Events unit) :=
  cid ← load this channelId;
  i ← load this id;
  p ← call (channelMessageReactionDelete cid i emoteId);
  mret (JS.then_ p (λ _, ())).

(** The method [delete]. *)
Definition delete_ (this : loc) : M (JS.Promise Events Response) :=
  cid ← load this channelId;
  i ← load this id;
  call (messages_delete cid i).

(** ** Runs of method calls

    Every member of the class, as a call on a receiver; [invoke] keeps the
    world the call leaves behind, whether it returned or threw. *)
Inductive Call : Type :=
| call__update (data : gmap string JS.Value)
| get_createdAt
| get_updatedAt
| get_deletedAt
| get_url
| get_author
| get_authorId
| get_member
| get_channel
| get_server
| call_edit (newContent : JS.Value)
| call_send (content : JS.Value)
| call_reply (content : JS.Value)
| call_addReaction (emoteId : JS.Number)
| call_deleteReaction (emoteId : JS.Number)
| call_delete.

Definition invoke (this : loc) (c : Call) (w : World) : World :=
  match c with
  | call__update data => (_update this data w).2
  | get_createdAt => (createdAt this w).2
  | get_updatedAt => (updatedAt this w).2
  | get_deletedAt => (deletedAt this w).2
  | get_url => (url this w).2
  | get_author => (author this w).2
  | get_authorId => (authorId this w).2
  | get_member => (member this w).2
  | get_channel => (channel this w).2
  | get_server => (server this w).2
  | call_edit c => (edit this c w).2
  | call_send c => (send this c w).2
  | call_reply c => (reply this c w).2
  | call_addReaction e => (addReaction this e w).2
  | call_deleteReaction e => (deleteReaction this e w).2
  | call_delete => (delete_ this w).2
  end.

(** What can happen to the world of messages: a method is called on some
    instance, or a new instance is constructed. *)
Inductive Op : Type :=
| on (this : loc) (c : Call)
| construct (data : ChatMessagePayload).

Definition step (o : Op) (w : World) : World :=
  match o with
  | on this c => invoke this c w
  | construct data => (new_Message data w).2
  end.

Fixpoint run (ops : list Op) (w : World) : World :=
  match ops with
  | [] => w
  | o :: rest => run rest (step o w)
  end.

(** ** The net effect of [_update]

    What one call of [_update] makes of the receiver, block by block; the run
    lemma [_update_run] below ties [_update] to it. *)
Definition put (this : loc) (m : Message) (w : World) : World :=
  set_heap (<[this := m]> (heap w)) w.

Definition update_content (data : gmap string JS.Value) (m : Message) : Message :=
  if JS.has_key "content" data
     && negb (String.eqb (JS.typeof (JS.prop data "content")) "undefined")
  then set_content (JS.prop data "content") m
  else m.

Definition update_mentions (data : gmap string JS.Value) (m : Message) : Message :=
  if JS.has_key "mentions" data then set_mentions (JS.prop data "mentions") m else m.

Definition update_updatedAt (data : gmap string JS.Value) (m : Message) : Message :=
  if JS.has_key "updatedAt" data
  then set__updatedAt
         (if JS.ToBoolean (JS.prop data "updatedAt")
          then Some (Date_parse (JS.prop data "updatedAt"))
          else None) m
  else m.

Definition update_deletedAt (data : gmap string JS.Value) (m : Message) : Message :=
  if JS.has_key "deletedAt" data
  then set__deletedAt (Some (Date_parse (JS.prop data "deletedAt"))) (set_deleted true m)
  else m.

(** What the right-hand side of the [embeds] block comes to: the new embeds,
    or the exception. *)
Definition mapped_embeds (v : JS.Value) : Completion (list Embed) :=
  match v with
  | JS.Undefined | JS.Null => Normal []
  | JS.Array xs => map_new_Embed xs
  | _ => Throw TypeError
  end.

(** How [_update] completes: with the receiver, or with the exception of the
    [embeds] block. *)
Definition update_result (this : loc) (data : gmap string JS.Value) : Completion loc :=
  if JS.has_key "embeds" data
  then match mapped_embeds (JS.prop data "embeds") with
       | Normal _ => Normal this
       | Throw e => Throw e
       end
  else Normal this.

Definition update_embeds (data : gmap string JS.Value) (m : Message) : Message :=
  if JS.has_key "embeds" data
  then match mapped_embeds (JS.prop data "embeds") with
       | Normal es => set_embeds es m
       | Throw _ => m
       end
  else m.

Definition updated (data : gmap string JS.Value) (m : Message) : Message :=
  update_embeds data
    (update_deletedAt data
       (update_updatedAt data
          (update_mentions data
             (update_content data m)))).

(** A payload with none of the keys [_update] looks at. *)
Definition unrecognized (data : gmap string JS.Value) : Prop :=
  data !! "content" = None ∧ data !! "mentions" = None ∧
  data !! "updatedAt" = None ∧ data !! "deletedAt" = None ∧
  data !! "embeds" = None.

(** What an operation makes of the instance at [this]: only [_update] called
    on that very instance rewrites it. *)
Definition effect_on (this : loc) (o : Op) (m : Message) : Message :=
  match o with
  | on l (call__update data) => if decide (l = this) then updated data m else m
  | _ => m
  end.

(** An operation other than an [_update] of [this] that carries the key
    [deletedAt]. *)
Definition spares_deletedAt (this : loc) (o : Op) : Prop :=
  match o with
  | on l (call__update data) => l = this → data !! "deletedAt" = None
  | _ => True
  end.

(** [t] occurs in [s]. *)
Definition contains (s t : string) : Prop :=
  ∃ before after : string, s = before +:+ t +:+ after.

(** ** Further vocabulary for the properties *)

(** The instance the constructor has assembled when it calls [_update]. *)
Definition constructed (data : ChatMessagePayload) : Message :=
  {| id := payload_id data;
     isReply := bool_decide (is_Some (payload_replyMessageIds data));
     channelId := payload_channelId data;
     groupId := payload_groupId data;
     content := JS.Str (JS.coalesce (payload_content data) "");
     serverId := payload_serverId data;
     replyMessageIds := JS.coalesce (payload_replyMessageIds data) [];
     createdById := payload_createdBy data;
     createdByWebhookId := payload_createdByWebhookId data;
     _createdAt := Date_parse (JS.Str (payload_createdAt data));
     _updatedAt := None;
     isPrivate := JS.coalesce (payload_isPrivate data) false;
     isSilent := JS.coalesce (payload_isSilent data) false;
     type := if String.eqb (payload_type data) "system" then System else Default;
     mentions := JS.Undefined;
     deleted := false;
     _deletedAt := None;
     embeds := [] |}.

(** The twelve [readonly] fields of an instance. *)
Definition readonly (m : Message) :=
  (id m, channelId m, serverId m, groupId m, type m, replyMessageIds m,
   isPrivate m, isSilent m, createdById m, isReply m, createdByWebhookId m,
   _createdAt m).

(** [deleted] and [_deletedAt] agree: the flag is up exactly when a deletion
    timestamp is stored. *)
Definition deletion_recorded (m : Message) : Prop :=
  deleted m = true ↔ is_Some (_deletedAt m).

(** The four caches of the client. *)
Definition caches (w : World) :=
  (users_cache w, members_cache w, channels_cache w, servers_cache w).

(** The keys [_update] looks at, and two payloads that share none of them. *)
Definition recognized : list string :=
  ["content"; "mentions"; "updatedAt"; "deletedAt"; "embeds"].

Definition independent (d1 d2 : gmap string JS.Value) : Prop :=
  Forall (λ k, d1 !! k = None ∨ d2 !! k = None) recognized.

(** [o.k] on an object kept as a field list: the first field named [k]. *)
Fixpoint object_get (k : string) (o : list (string * JS.Value)) : option JS.Value :=
  match o with
  | [] => None
  | (k', v) :: o' => if String.eqb k' k then Some v else object_get k o'
  end.

End MessageClass.

(** ** A concrete setting

    One choice of the imports, to run the class on actual payloads: an embed
    is kept as its raw data, and [new Embed] throws on an element that is no
    object and on a [timestamp] that [Date.parse] cannot read; [Date.parse]
    is the reference model above, member
    keys join server and user with a colon, and the remote layer is stateless
    with one later event, the answer to the request if one comes. *)
Definition sample_imports : Imports := {|
  Embed := JS.Value;
  new_Embed := λ x,
    match x with
    | JS.Object fields =>
        match object_get "timestamp" fields with
        | Some t =>
            match JS.Date_parse_iso t with
            | JS.Finite _ => Normal x
            | JS.NaN => Throw TypeError
            end
        | None => Normal x
        end
    | _ => Throw TypeError
    end;
  Date_parse := JS.Date_parse_iso;
  buildMemberKey := λ serverId memberId, serverId +:+ ":" +:+ memberId;
  resolveContentToData := λ c,
    match c with
    | JS.Object fields => fields
    | _ => [("content", c)]
    end;
  Remote := unit;
  Events := option bool;
  Response := unit;
  dispatch := λ _ _,
    (λ answer : option bool,
       match answer with
       | None => JS.Pending
       | Some true => JS.Fulfilled ()
       | Some false => JS.Rejected (JS.Str "failed")
       end, ())
|}.

(** A client with one user, member, channel and server cached, and no message
    yet. *)
Definition sample_client : @World sample_imports :=
  @Build_World sample_imports
    ∅
    {["U1" := 11%positive]}
    {["S1:W1" := 12%positive]}
    {["C1" := 13%positive]}
    {["S1" := 14%positive]}
    ()
    [].

(** The message M1 of channel C1 on server S1, posted through webhook W1. *)
Definition hello : ChatMessagePayload := {|
  payload_id := "M1";
  payload_type := "default";
  payload_serverId := Some "S1";
  payload_groupId := None;
  payload_channelId := "C1";
  payload_content := Some "hello";
  payload_embeds := None;
  payload_replyMessageIds := None;
  payload_isPrivate := None;
  payload_isSilent := None;
  payload_mentions := None;
  payload_createdAt := "2022-01-01T00:00:00.000Z";
  payload_createdBy := "U1";
  payload_createdByWebhookId := Some "W1";
  payload_updatedAt := None
|}.

(** The world after [new Message(client, hello)]; the instance is at 1. *)
Definition sample_world : @World sample_imports :=
  (new_Message hello sample_client).2.

Definition sample_message : @Message sample_imports := {|
  id := "M1";
  channelId := "C1";
  serverId := Some "S1";
  groupId := None;
  type := Default;
  content := JS.Str "hello";
  mentions := JS.Undefined;
  replyMessageIds := [];
  isPrivate := false;
  isSilent := false;
  createdById := "U1";
  isReply := false;
  createdByWebhookId := Some "W1";
  _createdAt := JS.Finite 1640995200000;
  _updatedAt := None;
  deleted := false;
  _deletedAt := None;
  embeds := []
|}.

(** The same message deleted on 2 January, and deleted again on 3 January. *)
Definition deleted_once : @World sample_imports :=
  (_update 1%positive {["deletedAt" := JS.Str "2022-01-02T00:00:00.000Z"]} sample_world).2.

Definition deleted_twice : @World sample_imports :=
  (_update 1%positive {["deletedAt" := JS.Str "2022-01-03T00:00:00.000Z"]} deleted_once).2.

(** The same message with mentions, and with an update time, set by an
    earlier [_update]. *)
Definition everyone : JS.Value := JS.Object [("everyone", JS.Boolean true)].

Definition mentioned_world : @World sample_imports :=
  (_update 1%positive {["mentions" := everyone]} sample_world).2.

Definition updated_world : @World sample_imports :=
  (_update 1%positive {["updatedAt" := JS.Str "2022-01-01T00:05:00.000Z"]}
     sample_world).2.

(** Two embeds as the gateway sends them, and one whose timestamp cannot be
    read. *)
Definition embed_a : JS.Value := JS.Object [("title", JS.Str "a")].
Definition embed_b : JS.Value := JS.Object [("title", JS.Str "b")].
Definition embed_garbage : JS.Value := JS.Object [("timestamp", JS.Str "garbage")].

(** A payload whose [serverId] is the empty string, and a client whose server
    and member caches have an entry under the keys that string gives. *)
Definition hello_unserved : ChatMessagePayload := {|
  payload_id := "M1";
  payload_type := "default";
  payload_serverId := Some "";
  payload_groupId := None;
  payload_channelId := "C1";
  payload_content := Some "hello";
  payload_embeds := None;
  payload_replyMessageIds := None;
  payload_isPrivate := None;
  payload_isSilent := None;
  payload_mentions := None;
  payload_createdAt := "2022-01-01T00:00:00.000Z";
  payload_createdBy := "U1";
  payload_createdByWebhookId := Some "W1";
  payload_updatedAt := None
|}.

Definition unserved_client : @World sample_imports :=
  @Build_World sample_imports
    ∅
    {["U1" := 11%positive]}
    {[":W1" := 12%positive]}
    {["C1" := 13%positive]}
    {["" := 14%positive]}
    ()
    [].

Definition unserved_world : @World sample_imports :=
  (new_Message hello_unserved unserved_client).2.

Definition unserved_message : @Message sample_imports := {|
  id := "M1";
  channelId := "C1";
  serverId := Some "";
  groupId := None;
  type := Default;
  content := JS.Str "hello";
  mentions := JS.Undefined;
  replyMessageIds := [];
  isPrivate := false;
  isSilent := false;
  createdById := "U1";
  isReply := false;
  createdByWebhookId := Some "W1";
  _createdAt := JS.Finite 1640995200000;
  _updatedAt := None;
  deleted := false;
  _deletedAt := None;
  embeds := []
|}.

(** ** Properties *)

Section Properties.

Context `{Imports}.

Implicit Types (w : World) (this : loc) (m : Message) (data : gmap string JS.Value).

Lemma bind_run {A B : Type} (c : M A) (f : A → M B) w :
  (c ≫= f) w =
  match c w with
  | (Normal a, w') => f a w'
  | (Throw e, w') => (Throw e, w')
  end.
Proof. reflexivity. Qed.

Lemma put_lookup this m w : heap (put this m w) !! this = Some m.
Proof. unfold put. simpl. apply lookup_insert_eq. Qed.

Lemma put_lookup_ne this l m w : this ≠ l → heap (put this m w) !! l = heap w !! l.
Proof. intros Hne. unfold put. simpl. by apply lookup_insert_ne. Qed.

Lemma put_put this m1 m2 w : put this m2 (put this m1 w) = put this m2 w.
Proof. unfold put, set_heap. simpl. by rewrite insert_insert_eq. Qed.

Lemma put_same this m w : heap w !! this = Some m → put this m w = w.
Proof.
  intros Hm. unfold put, set_heap. rewrite (insert_id _ _ _ Hm). by destruct w.
Qed.

Lemma load_run {A : Type} this (f : Message → A) m w :
  heap w !! this = Some m → load this f w = (Normal (f m), w).
Proof. intros Hm. unfold load. by rewrite Hm. Qed.

Lemma store_run this (set : Message → Message) m w :
  heap w !! this = Some m → store this set w = (Normal (), put this (set m) w).
Proof. intros Hm. unfold store. by rewrite Hm. Qed.

Lemma when_store_run (c : bool) this (set : Message → Message) m w :
  heap w !! this = Some m →
  when_ c (store this set) w = (Normal (), put this (if c then set m else m) w).
Proof.
  intros Hm. destruct c; simpl.
  - by apply store_run.
  - by rewrite put_same.
Qed.

(** One call of [_update] on a live receiver: it leaves [updated data m] in
    place of [m]; it returns the receiver, unless the [embeds] value cannot
    be mapped, and then the blocks before it have run all the same. *)
Lemma _update_run this data m w :
  heap w !! this = Some m →
  _update this data w =
    (update_result this data, put this (updated data m) w).
Proof.
  intros Hm. unfold _update.
  rewrite bind_run, (when_store_run _ _ _ m) by done.
  fold (update_content data m). set (m1 := update_content data m).
  rewrite bind_run, (when_store_run _ _ _ m1) by apply put_lookup.
  rewrite put_put. fold (update_mentions data m1). set (m2 := update_mentions data m1).
  rewrite bind_run, (when_store_run _ _ _ m2) by apply put_lookup.
  rewrite put_put. fold (update_updatedAt data m2). set (m3 := update_updatedAt data m2).
  assert (Hdel : when_ (JS.has_key "deletedAt" data)
            (store this (set_deleted true);;
             store this (set__deletedAt (Some (Date_parse (JS.prop data "deletedAt")))))
            (put this m3 w) = (Normal (), put this (update_deletedAt data m3) w)).
  { unfold update_deletedAt. destruct (JS.has_key "deletedAt" data); simpl.
    - rewrite bind_run, (store_run _ _ m3) by apply put_lookup.
      rewrite put_put, (store_run _ _ (set_deleted true m3)) by apply put_lookup.
      by rewrite put_put.
    - reflexivity. }
  rewrite bind_run, Hdel. set (m4 := update_deletedAt data m3).
  rewrite bind_run. unfold updated, update_result, update_embeds.
  fold m1 m2 m3 m4.
  destruct (JS.has_key "embeds" data); simpl.
  - rewrite bind_run.
    assert (Hmap : map_embeds (JS.prop data "embeds") (put this m4 w)
                   = (mapped_embeds (JS.prop data "embeds"), put this m4 w)).
    { unfold map_embeds, mapped_embeds. by destruct (JS.prop data "embeds"). }
    rewrite Hmap.
    destruct (mapped_embeds (JS.prop data "embeds")) as [es|e]; [|reflexivity].
    rewrite (store_run _ _ m4) by apply put_lookup. by rewrite put_put.
  - reflexivity.
Qed.

(** On a location that holds no message nothing is written. *)
Lemma _update_no_object this data w :
  heap w !! this = None → (_update this data w).2 = w.
Proof.
  intros Hm.
  unfold _update, when_, store, map_embeds, completes, throw, mbind, M_bind,
    mret, M_ret.
  repeat first
    [ rewrite Hm
    | progress simpl
    | match goal with
      | |- context [if ?c then _ else _] => destruct c
      | |- context [match JS.prop data "embeds" with _ => _ end] =>
          destruct (JS.prop data "embeds")
      | |- context [match map_new_Embed ?xs with _ => _ end] =>
          destruct (map_new_Embed xs)
      end ];
    reflexivity.
Qed.

(** The fields [updated] leaves alone, and what it makes of the others. *)
Lemma updated_content data m :
  content (updated data m) = content (update_content data m).
Proof.
  unfold updated, update_embeds, update_deletedAt, update_updatedAt, update_mentions.
  repeat case_match; reflexivity.
Qed.

Lemma updated__updatedAt data m :
  _updatedAt (updated data m) =
  if JS.has_key "updatedAt" data
  then (if JS.ToBoolean (JS.prop data "updatedAt")
        then Some (Date_parse (JS.prop data "updatedAt"))
        else None)
  else _updatedAt m.
Proof.
  unfold updated, update_embeds, update_deletedAt, update_updatedAt,
    update_mentions, update_content.
  repeat case_match; reflexivity.
Qed.

Lemma updated_deleted data m :
  deleted (updated data m) = JS.has_key "deletedAt" data || deleted m.
Proof.
  unfold updated, update_embeds, update_deletedAt, update_updatedAt,
    update_mentions, update_content.
  repeat case_match; reflexivity.
Qed.

Lemma updated__deletedAt data m :
  _deletedAt (updated data m) =
  if JS.has_key "deletedAt" data
  then Some (Date_parse (JS.prop data "deletedAt"))
  else _deletedAt m.
Proof.
  unfold updated, update_embeds, update_deletedAt, update_updatedAt,
    update_mentions, update_content.
  repeat case_match; reflexivity.
Qed.

Lemma has_key_true k data : JS.has_key k data = true ↔ is_Some (data !! k).
Proof. unfold JS.has_key. apply bool_decide_eq_true. Qed.

Lemma has_key_false k data : JS.has_key k data = false ↔ data !! k = None.
Proof.
  unfold JS.has_key. rewrite bool_decide_eq_false. symmetry. apply eq_None_not_Some.
Qed.

Lemma prop_lookup k data v : data !! k = Some v → JS.prop data k = v.
Proof. intros Hk. unfold JS.prop. by rewrite Hk. Qed.

Lemma updated_unrecognized data m : unrecognized data → updated data m = m.
Proof.
  intros (Hc & Hm & Hu & Hd & He).
  apply has_key_false in Hc, Hm, Hu, Hd, He.
  unfold updated, update_embeds, update_deletedAt, update_updatedAt,
    update_mentions, update_content.
  by rewrite Hc, Hm, Hu, Hd, He.
Qed.

(** *** Accessors and actions *)

Ltac unfold_method :=
  unfold createdAt, updatedAt, deletedAt, url, author, authorId, member,
    channel, server, edit, send, reply, addReaction, deleteReaction, delete_,
    authorId, load, client, call, mbind, M_bind, mret, M_ret.

Ltac run_on Hm := unfold_method; repeat (rewrite Hm; simpl).

Lemma authorId_run this m w :
  heap w !! this = Some m →
  authorId this w = (Normal (JS.coalesce (createdByWebhookId m) (createdById m)), w).
Proof. intros Hm. by run_on Hm. Qed.

Lemma url_run this m w :
  heap w !! this = Some m →
  url this w =
    (Normal (if negb (JS.ToBoolean (JS.nullable (serverId m))) then ""
             else "https://www.guilded.gg/chat/" +:+ channelId m
                    +:+ "?messageId=" +:+ id m), w).
Proof.
  intros Hm. run_on Hm.
  destruct (negb _); [done|]. by run_on Hm.
Qed.

Lemma author_run this m w :
  heap w !! this = Some m →
  author this w = (Normal (users_cache w !! createdById m), w).
Proof. intros Hm. by run_on Hm. Qed.

Lemma channel_run this m w :
  heap w !! this = Some m →
  channel this w = (Normal (channels_cache w !! channelId m), w).
Proof. intros Hm. by run_on Hm. Qed.

Lemma member_run this m w :
  heap w !! this = Some m →
  member this w =
    (Normal (match JS.narrow (serverId m) with
             | Some s =>
                 members_cache w
                   !! buildMemberKey s (JS.coalesce (createdByWebhookId m) (createdById m))
             | None => None
             end), w).
Proof.
  intros Hm. run_on Hm.
  destruct (JS.narrow (serverId m)); [|done]. by run_on Hm.
Qed.

Lemma server_run this m w :
  heap w !! this = Some m →
  server this w =
    (Normal (match JS.narrow (serverId m) with
             | Some s => servers_cache w !! s
             | None => None
             end), w).
Proof.
  intros Hm. run_on Hm.
  by destruct (JS.narrow (serverId m)).
Qed.

Lemma edit_run this m newContent w :
  heap w !! this = Some m →
  edit this newContent w =
    (let r := messages_update (channelId m) (id m) newContent in
     (Normal (JS.then_ (dispatch r (remote w)).1 (λ _, this)),
      sent r (dispatch r (remote w)).2 w)).
Proof.
  intros Hm. run_on Hm.
  by destruct (dispatch _ _).
Qed.

Lemma narrow_Some o s : JS.narrow o = Some s ↔ o = Some s ∧ s ≠ "".
Proof.
  unfold JS.narrow. destruct o as [s'|]; simpl; [|intuition congruence].
  destruct (String.eqb s' "") eqn:E; simpl.
  - apply String.eqb_eq in E. intuition congruence.
  - apply String.eqb_neq in E. intuition congruence.
Qed.

Lemma narrow_None o : JS.narrow o = None ↔ o = None ∨ o = Some "".
Proof.
  unfold JS.narrow. destruct o as [s'|]; simpl; [|intuition congruence].
  destruct (String.eqb s' "") eqn:E; simpl.
  - apply String.eqb_eq in E. intuition congruence.
  - apply String.eqb_neq in E. intuition congruence.
Qed.

(** Whatever the receiver, a call other than [_update] leaves every
    instance as it is, and an accessor leaves the whole world as it is. *)
Lemma invoke_heap l (c : Call) w :
  (∀ data, c ≠ call__update data) → heap (invoke l c w) = heap w.
Proof.
  intros Hc. destruct c; try (by destruct (Hc data));
    simpl; unfold_method;
    repeat first
      [ progress simpl
      | match goal with
        | |- context [match heap w !! l with _ => _ end] => destruct (heap w !! l)
        | |- context [let (_, _) := dispatch ?r ?s in _] => destruct (dispatch r s)
        | |- context [match ?o with Some _ => _ | None => _ end] => destruct o
        | |- context [if ?b then _ else _] => destruct b
        end ];
    reflexivity.
Qed.

Lemma accessor_world l (c : Call) w :
  match c with
  | get_createdAt | get_updatedAt | get_deletedAt | get_url | get_author
  | get_authorId | get_member | get_channel | get_server => invoke l c w = w
  | _ => True
  end.
Proof.
  destruct c; try exact I;
    simpl; unfold_method;
    repeat first
      [ progress simpl
      | match goal with
        | |- context [match heap w !! l with _ => _ end] => destruct (heap w !! l)
        | |- context [match ?o with Some _ => _ | None => _ end] => destruct o
        | |- context [if ?b then _ else _] => destruct b
        end ];
    reflexivity.
Qed.

(** *** Runs *)

Lemma new_Message_other (d : ChatMessagePayload) this m w :
  heap w !! this = Some m → heap (new_Message d w).2 !! this = Some m.
Proof.
  intros Hm. unfold new_Message.
  cbv zeta.
  match goal with
  | |- context [set_heap (<[?l' := ?m']> (heap w)) w] => set (l := l'); set (m0 := m')
  end.
  assert (Hne : l ≠ this).
  { intros Heq. apply (is_fresh (dom (heap w))). fold l. rewrite Heq.
    apply elem_of_dom. eauto. }
  fold (put l m0 w).
  rewrite (_update_run l _ m0) by apply put_lookup. cbn [snd].
  by rewrite put_put, put_lookup_ne.
Qed.

Lemma step_lookup (o : Op) this m w :
  heap w !! this = Some m → heap (step o w) !! this = Some (effect_on this o m).
Proof.
  intros Hm. destruct o as [l c|d]; simpl; [|by apply new_Message_other].
  destruct c; try (rewrite invoke_heap; [done|discriminate]).
  simpl. case_decide as Hl.
  - subst l. rewrite (_update_run this data m) by done. cbn [snd]. apply put_lookup.
  - destruct (heap w !! l) as [ml|] eqn:Hl'.
    + rewrite (_update_run l data ml) by done. cbn [snd]. by rewrite put_lookup_ne.
    + by rewrite _update_no_object.
Qed.

Lemma run_lookup (ops : list Op) this m w :
  heap w !! this = Some m →
  heap (run ops w) !! this = Some (foldl (λ m' o, effect_on this o m') m ops).
Proof.
  revert m w. induction ops as [|o ops IH]; intros m w Hm; simpl; [done|].
  apply IH. by apply step_lookup.
Qed.

Lemma effect_on_deleted this (o : Op) m :
  deleted m = true → deleted (effect_on this o m) = true.
Proof.
  intros Hd. destruct o as [l c|d]; simpl; [|done].
  destruct c; try done. case_decide; [|done].
  rewrite updated_deleted, Hd. apply orb_true_r.
Qed.

Lemma effect_on__deletedAt this (o : Op) m :
  spares_deletedAt this o → _deletedAt (effect_on this o m) = _deletedAt m.
Proof.
  intros Hs. destruct o as [l c|d]; simpl; [|done].
  destruct c; try done. case_decide as Hl; [|done].
  rewrite updated__deletedAt. simpl in Hs.
  apply Hs, has_key_false in Hl. by rewrite Hl.
Qed.

(** *** [_update] *)

(** C1. After [_update(data)] the content is the payload's [content] value
    when the key is there with a value other than [undefined], an empty
    string included; it is what it was when the key is missing or holds
    [undefined].  The key is tested, not the truth of the value. *)
Theorem update_content_by_presence w this m data :
  heap w !! this = Some m →
  ∃ m', heap (_update this data w).2 !! this = Some m' ∧
    (∀ v, data !! "content" = Some v → v ≠ JS.Undefined → content m' = v) ∧
    (data !! "content" = Some (JS.Str "") → content m' = JS.Str "") ∧
    (data !! "content" = None ∨ data !! "content" = Some JS.Undefined →
     content m' = content m).
Proof.
  intros Hm. exists (updated data m).
  rewrite (_update_run this data m) by done. cbn [snd].
  split; [apply put_lookup|].
  rewrite updated_content. unfold update_content.
  assert (Hset : ∀ v, data !! "content" = Some v → v ≠ JS.Undefined →
                      content (if JS.has_key "content" data
                                  && negb (JS.typeof (JS.prop data "content")
                                           =? "undefined")%string
                               then set_content (JS.prop data "content") m
                               else m) = v).
  { intros v Hv Hdef.
    assert (Hk : JS.has_key "content" data = true) by (apply has_key_true; eauto).
    rewrite Hk, (prop_lookup _ _ _ Hv).
    by destruct v. }
  split; [exact Hset|]. split.
  - intros Hv. by apply Hset.
  - intros [Hnone|Hundef].
    + apply has_key_false in Hnone. by rewrite Hnone.
    + rewrite (prop_lookup _ _ _ Hundef). simpl. by rewrite andb_false_r.
Qed.

(** C2. [deleted] is a latch.  An [_update] whose payload has the key
    [deletedAt] leaves [deleted] true, and it is still true after any further
    operations, whatever they are; and from a state where [deleted] is true,
    no method call on any instance and no construction makes it false. *)
Theorem deleted_is_a_latch w this m :
  heap w !! this = Some m →
  (∀ data, is_Some (data !! "deletedAt") →
     ∀ ops, ∃ m', heap (run ops (_update this data w).2) !! this = Some m'
                  ∧ deleted m' = true) ∧
  (deleted m = true →
     ∀ o, ∃ m', heap (step o w) !! this = Some m' ∧ deleted m' = true).
Proof.
  intros Hm. split.
  - intros data Hkey ops.
    rewrite (_update_run this data m) by done. cbn [snd].
    eexists. split; [apply run_lookup, put_lookup|].
    assert (Hd : deleted (updated data m) = true).
    { rewrite updated_deleted. apply has_key_true in Hkey. by rewrite Hkey. }
    revert Hd. generalize (updated data m).
    induction ops as [|o ops IH]; intros m1 Hd; simpl; [done|].
    apply IH. by apply effect_on_deleted.
  - intros Hd o. exists (effect_on this o m).
    split; [by apply step_lookup | by apply effect_on_deleted].
Qed.

(** C3, as the code has it.  Each [_update] whose payload has the key
    [deletedAt] records the parse of the value it brings, also when a
    timestamp was recorded before.  The recorded timestamp stays through any
    operations other than such an [_update] of this instance. *)
Theorem deletedAt_follows_the_last_deletion w this m :
  heap w !! this = Some m →
  (∀ data v, data !! "deletedAt" = Some v →
     ∃ m', heap (_update this data w).2 !! this = Some m'
           ∧ _deletedAt m' = Some (Date_parse v)) ∧
  (∀ ops, Forall (spares_deletedAt this) ops →
     ∃ m', heap (run ops w) !! this = Some m' ∧ _deletedAt m' = _deletedAt m).
Proof.
  intros Hm. split.
  - intros data v Hv. exists (updated data m).
    rewrite (_update_run this data m) by done. cbn [snd].
    split; [apply put_lookup|].
    rewrite updated__deletedAt.
    assert (Hk : JS.has_key "deletedAt" data = true) by (apply has_key_true; eauto).
    by rewrite Hk, (prop_lookup _ _ _ Hv).
  - intros ops Hops. eexists. split; [by apply run_lookup|].
    clear Hm. revert m.
    induction Hops as [|o ops Ho _ IH]; intros m; simpl; [done|].
    rewrite IH. by apply effect_on__deletedAt.
Qed.

(** C4. After [_update(data)] with the key [updatedAt], the stored
    [_updatedAt] is the parse of the value when the value is truthy and
    [null] when it is falsy; without the key it is what it was. *)
Theorem update_updatedAt_by_presence w this m data :
  heap w !! this = Some m →
  ∃ m', heap (_update this data w).2 !! this = Some m' ∧
    (∀ v, data !! "updatedAt" = Some v → JS.ToBoolean v = true →
          _updatedAt m' = Some (Date_parse v)) ∧
    (∀ v, data !! "updatedAt" = Some v → JS.ToBoolean v = false →
          _updatedAt m' = None) ∧
    (data !! "updatedAt" = None → _updatedAt m' = _updatedAt m).
Proof.
  intros Hm. exists (updated data m).
  rewrite (_update_run this data m) by done. cbn [snd].
  split; [apply put_lookup|].
  rewrite updated__updatedAt.
  repeat split.
  - intros v Hv Ht.
    assert (Hk : JS.has_key "updatedAt" data = true) by (apply has_key_true; eauto).
    by rewrite Hk, (prop_lookup _ _ _ Hv), Ht.
  - intros v Hv Hf.
    assert (Hk : JS.has_key "updatedAt" data = true) by (apply has_key_true; eauto).
    by rewrite Hk, (prop_lookup _ _ _ Hv), Hf.
  - intros Hnone. apply has_key_false in Hnone. by rewrite Hnone.
Qed.

Lemma map_new_Embed_Normal (xs : list JS.Value) (es : list Embed) :
  Forall2 (λ x e, new_Embed x = Normal e) xs es ↔ map_new_Embed xs = Normal es.
Proof.
  revert es. induction xs as [|x xs IH]; intros es; simpl.
  - split.
    + intros Hf. by apply Forall2_nil_inv_l in Hf as ->.
    + intros [= <-]. constructor.
  - split.
    + intros Hf. apply Forall2_cons_inv_l in Hf as (e & es' & He & Hes & ->).
      rewrite He. apply IH in Hes. by rewrite Hes.
    + destruct (new_Embed x) as [e|err] eqn:He; [|discriminate].
      destruct (map_new_Embed xs) as [es'|err] eqn:Hes; [|discriminate].
      intros [= <-]. constructor; [done|]. by apply IH.
Qed.

Lemma map_new_Embed_Throw (pre post : list JS.Value) (x : JS.Value) (err : Error) :
  Forall (λ y, ∃ e, new_Embed y = Normal e) pre →
  new_Embed x = Throw err →
  map_new_Embed (pre ++ x :: post) = Throw err.
Proof.
  intros Hpre Hx. induction Hpre as [|y pre [e He] _ IH]; simpl.
  - by rewrite Hx.
  - by rewrite He, IH.
Qed.

Lemma update_result_Normal this data l : update_result this data = Normal l → l = this.
Proof.
  unfold update_result. repeat case_match; congruence.
Qed.

Lemma update_result_embeds this data v :
  data !! "embeds" = Some v →
  update_result this data =
  match mapped_embeds v with
  | Normal _ => Normal this
  | Throw e => Throw e
  end.
Proof.
  intros Hv. unfold update_result.
  assert (Hk : JS.has_key "embeds" data = true) by (apply has_key_true; eauto).
  by rewrite Hk, (prop_lookup _ _ _ Hv).
Qed.

(** C5, as the code has it.  An [_update] whose payload has none of the keys
    [content], [mentions], [updatedAt], [deletedAt], [embeds] returns the
    receiver and leaves the world, so every field of the instance, as it was.
    For any payload, [_update] returns nothing but the receiver, and it does
    return when the key [embeds] is missing, when its value is [undefined] or
    [null], and when it is an array on whose every element [new Embed]
    returns.  It throws when [new Embed] throws on an element, with that
    exception, and when the value is anything else, with a [TypeError]. *)
Theorem update_frame_and_result w this m data :
  heap w !! this = Some m →
  (unrecognized data → _update this data w = (Normal this, w)) ∧
  (∀ l, (_update this data w).1 = Normal l → l = this) ∧
  (data !! "embeds" = None ∨ data !! "embeds" = Some JS.Undefined
   ∨ data !! "embeds" = Some JS.Null →
     (_update this data w).1 = Normal this) ∧
  (∀ xs es, data !! "embeds" = Some (JS.Array xs) →
     Forall2 (λ x e, new_Embed x = Normal e) xs es →
     (_update this data w).1 = Normal this) ∧
  (∀ pre x post err, data !! "embeds" = Some (JS.Array (pre ++ x :: post)) →
     Forall (λ y, ∃ e, new_Embed y = Normal e) pre →
     new_Embed x = Throw err →
     (_update this data w).1 = Throw err) ∧
  (∀ v, data !! "embeds" = Some v →
     match v with JS.Undefined | JS.Null | JS.Array _ => False | _ => True end →
     (_update this data w).1 = Throw TypeError).
Proof.
  intros Hm. rewrite (_update_run this data m) by done. cbn [fst].
  split; [|split; [|split; [|split; [|split]]]].
  - intros Hun. rewrite (updated_unrecognized _ _ Hun), put_same by done.
    destruct Hun as (_ & _ & _ & _ & He). apply has_key_false in He.
    unfold update_result. by rewrite He.
  - intros l. apply update_result_Normal.
  - intros [Hnone|[Hv|Hv]].
    + apply has_key_false in Hnone. unfold update_result. by rewrite Hnone.
    + by rewrite (update_result_embeds _ _ _ Hv).
    + by rewrite (update_result_embeds _ _ _ Hv).
  - intros xs es Hv Hes. rewrite (update_result_embeds _ _ _ Hv). simpl.
    apply map_new_Embed_Normal in Hes. by rewrite Hes.
  - intros pre x post err Hv Hpre Hx. rewrite (update_result_embeds _ _ _ Hv).
    simpl. by rewrite (map_new_Embed_Throw pre post x err).
  - intros v Hv Hbad. rewrite (update_result_embeds _ _ _ Hv). by destruct v.
Qed.

(** *** Derived accessors *)

(** C6. [authorId] is [createdByWebhookId] when that is not [null], and
    [createdById] otherwise; so with [createdById = "U1"] and
    [createdByWebhookId = "W1"] it is ["W1"]. *)
Theorem authorId_prefers_webhook w this m :
  heap w !! this = Some m →
  ∃ a, authorId this w = (Normal a, w) ∧
    (∀ wid, createdByWebhookId m = Some wid → a = wid) ∧
    (createdByWebhookId m = None → a = createdById m) ∧
    (createdById m = "U1" → createdByWebhookId m = Some "W1" → a = "W1").
Proof.
  intros Hm. eexists. split; [by apply authorId_run|].
  repeat split.
  - by intros wid ->.
  - by intros ->.
  - by intros _ ->.
Qed.

Lemma append_nil_r (s : string) : s +:+ "" = s.
Proof.
  induction s as [|c s IH]; [done|].
  change (String c (s +:+ "") = String c s). by rewrite IH.
Qed.

Lemma append_assoc (s t u : string) : (s +:+ t) +:+ u = s +:+ t +:+ u.
Proof.
  induction s as [|c s IH]; [done|].
  change (String c ((s +:+ t) +:+ u) = String c (s +:+ t +:+ u)). by rewrite IH.
Qed.

(** C7, as the code has it.  [url] is the empty string when [serverId] is
    [null] or the empty string; for any other [serverId] it is the chat
    address made of [channelId] and [id], which has both in it, and the part
    [/chat/<channelId>?messageId=<id>] too. *)
Theorem url_needs_a_truthy_serverId w this m :
  heap w !! this = Some m →
  ∃ u, url this w = (Normal u, w) ∧
    (serverId m = None ∨ serverId m = Some "" → u = "") ∧
    (∀ s, serverId m = Some s → s ≠ "" →
       u = "https://www.guilded.gg/chat/" +:+ channelId m +:+ "?messageId=" +:+ id m
       ∧ contains u (channelId m)
       ∧ contains u (id m)
       ∧ contains u ("/chat/" +:+ channelId m +:+ "?messageId=" +:+ id m)).
Proof.
  intros Hm. eexists. split; [by apply url_run|]. split.
  - by intros [-> | ->].
  - intros s -> Hs. simpl.
    destruct (String.eqb s "") eqn:E; [by apply String.eqb_eq in E|]. simpl.
    split; [done|]. split; [|split].
    + by exists "https://www.guilded.gg/chat/", ("?messageId=" +:+ id m).
    + exists ("https://www.guilded.gg/chat/" +:+ channelId m +:+ "?messageId="), "".
      by rewrite append_nil_r, !append_assoc.
    + exists "https://www.guilded.gg", "". by rewrite append_nil_r.
Qed.

(** C8, as the code has it.  [author] and [channel] return what the users and
    channels caches hold under [createdById] and [channelId]: [null] on a
    miss, the cached instance itself on a hit.  [member] and [server] do the
    same under the member key and under [serverId] when [serverId] is neither
    [null] nor the empty string, and return [null] when it is either.  Each
    accessor hands back the world it was given: it writes nothing and sends
    nothing. *)
Theorem accessors_read_the_caches w this m :
  heap w !! this = Some m →
  author this w = (Normal (users_cache w !! createdById m), w) ∧
  channel this w = (Normal (channels_cache w !! channelId m), w) ∧
  (∀ s, serverId m = Some s → s ≠ "" →
     member this w =
       (Normal (members_cache w
                  !! buildMemberKey s
                       (JS.coalesce (createdByWebhookId m) (createdById m))), w)
     ∧ server this w = (Normal (servers_cache w !! s), w)) ∧
  (serverId m = None ∨ serverId m = Some "" →
     member this w = (Normal None, w) ∧ server this w = (Normal None, w)).
Proof.
  intros Hm.
  split; [by apply author_run|]. split; [by apply channel_run|].
  rewrite (member_run this m w), (server_run this m w) by done. split.
  - intros s Hs Hne.
    assert (Hn : JS.narrow (serverId m) = Some s) by by apply narrow_Some.
    by rewrite Hn.
  - intros Hs. apply narrow_None in Hs. by rewrite Hs.
Qed.

(** *** Actions *)

(** C9. [edit] writes no field: the heap after the call is the heap before
    it, and the one thing it does is send [messages.update] for this channel
    and message.  The promise it returns is fulfilled with the receiver
    whenever that request is fulfilled (and rejected as the request is).  No
    method but [_update] changes any instance. *)
Theorem edit_writes_no_field w this m newContent :
  heap w !! this = Some m →
  ∃ p w', edit this newContent w = (Normal p, w') ∧
    heap w' = heap w ∧
    outbox w' = (outbox w ++ [messages_update (channelId m) (id m) newContent])%list ∧
    (∀ e v, (dispatch (messages_update (channelId m) (id m) newContent) (remote w)).1 e
              = JS.Fulfilled v → p e = JS.Fulfilled this) ∧
    (∀ e r, (dispatch (messages_update (channelId m) (id m) newContent) (remote w)).1 e
              = JS.Rejected r → p e = JS.Rejected r) ∧
    (∀ l c, (∀ data, c ≠ call__update data) → heap (invoke l c w) = heap w).
Proof.
  intros Hm. rewrite (edit_run this m) by done. cbv zeta.
  eexists _, _. split; [reflexivity|]. repeat split.
  - intros e v Hv. unfold JS.then_. by rewrite Hv.
  - intros e r Hr. unfold JS.then_. by rewrite Hr.
  - intros l c Hc. by apply invoke_heap.
Qed.

(** C10, as the code has it.  For a message whose [serverId] is neither
    [null] nor the empty string, [member] looks up the key built from
    [serverId] and [authorId]; so for a message created by a webhook the user
    part of the key is the webhook id, not [createdById]. *)
Theorem member_key_uses_authorId w this m s :
  heap w !! this = Some m →
  serverId m = Some s →
  s ≠ "" →
  ∃ a, authorId this w = (Normal a, w) ∧
    member this w = (Normal (members_cache w !! buildMemberKey s a), w) ∧
    (∀ wid, createdByWebhookId m = Some wid →
       member this w = (Normal (members_cache w !! buildMemberKey s wid), w)).
Proof.
  intros Hm Hs Hne. eexists. split; [by apply authorId_run|].
  assert (Hn : JS.narrow (serverId m) = Some s) by by apply narrow_Some.
  rewrite (member_run this m w) by done. rewrite Hn.
  split; [done|]. by intros wid ->.
Qed.

(** ** More of the class *)

(** *** The rest of [_update] *)

Lemma updated_mentions data m :
  mentions (updated data m) =
  if JS.has_key "mentions" data then JS.prop data "mentions" else mentions m.
Proof.
  unfold updated, update_embeds, update_deletedAt, update_updatedAt,
    update_mentions, update_content.
  repeat case_match; reflexivity.
Qed.

Lemma updated_embeds data m :
  embeds (updated data m) =
  if JS.has_key "embeds" data
  then match mapped_embeds (JS.prop data "embeds") with
       | Normal es => es
       | Throw _ => embeds m
       end
  else embeds m.
Proof.
  unfold updated, update_embeds, update_deletedAt, update_updatedAt,
    update_mentions, update_content.
  repeat case_match; reflexivity.
Qed.

Lemma updated_readonly data m : readonly (updated data m) = readonly m.
Proof.
  unfold updated, update_embeds, update_deletedAt, update_updatedAt,
    update_mentions, update_content.
  repeat case_match; reflexivity.
Qed.

(** X3. [mentions] is replaced whenever the key is in the payload, by
    whatever value comes with it, [undefined] included; without the key it
    stays. *)
Theorem update_mentions_by_presence w this m data :
  heap w !! this = Some m →
  ∃ m', heap (_update this data w).2 !! this = Some m' ∧
    (∀ v, data !! "mentions" = Some v → mentions m' = v) ∧
    (data !! "mentions" = Some JS.Undefined → mentions m' = JS.Undefined) ∧
    (data !! "mentions" = None → mentions m' = mentions m).
Proof.
  intros Hm. exists (updated data m).
  rewrite (_update_run this data m) by done. cbn [snd].
  split; [apply put_lookup|]. rewrite updated_mentions.
  assert (Hset : ∀ v, data !! "mentions" = Some v →
            (if JS.has_key "mentions" data then JS.prop data "mentions"
             else mentions m) = v).
  { intros v Hv.
    assert (Hk : JS.has_key "mentions" data = true) by (apply has_key_true; eauto).
    by rewrite Hk, (prop_lookup _ _ _ Hv). }
  split; [exact Hset|]. split; [by apply Hset|].
  intros Hnone. apply has_key_false in Hnone. by rewrite Hnone.
Qed.

(** X4. With the key [embeds] in the payload the embeds are replaced as a
    whole.  For an array on whose every element [new Embed] returns, they
    become the embeds so made, one per element and in order; for [undefined]
    or [null] they become the empty list.  When [new Embed] throws on an
    element, [_update] throws that exception and the embeds stay as they
    were, as they do without the key. *)
Theorem update_embeds_by_presence w this m data :
  heap w !! this = Some m →
  ∃ m', heap (_update this data w).2 !! this = Some m' ∧
    (∀ xs es, data !! "embeds" = Some (JS.Array xs) →
       Forall2 (λ x e, new_Embed x = Normal e) xs es →
       embeds m' = es ∧ length (embeds m') = length xs) ∧
    (∀ pre x post err, data !! "embeds" = Some (JS.Array (pre ++ x :: post)) →
       Forall (λ y, ∃ e, new_Embed y = Normal e) pre →
       new_Embed x = Throw err →
       (_update this data w).1 = Throw err ∧ embeds m' = embeds m) ∧
    (data !! "embeds" = Some JS.Undefined ∨ data !! "embeds" = Some JS.Null →
       embeds m' = []) ∧
    (data !! "embeds" = None → embeds m' = embeds m).
Proof.
  intros Hm. exists (updated data m).
  rewrite (_update_run this data m) by done. cbn [fst snd].
  split; [apply put_lookup|]. rewrite updated_embeds.
  split; [|split; [|split]].
  - intros xs es Hxs Hes.
    assert (Hk : JS.has_key "embeds" data = true) by (apply has_key_true; eauto).
    rewrite Hk, (prop_lookup _ _ _ Hxs). simpl.
    pose proof (Forall2_length _ _ _ Hes) as Hlen.
    apply map_new_Embed_Normal in Hes. by rewrite Hes.
  - intros pre x post err Hxs Hpre Hx.
    assert (Hk : JS.has_key "embeds" data = true) by (apply has_key_true; eauto).
    rewrite (update_result_embeds _ _ _ Hxs), Hk, (prop_lookup _ _ _ Hxs). simpl.
    by rewrite (map_new_Embed_Throw pre post x err).
  - intros [Hv|Hv];
      (assert (Hk : JS.has_key "embeds" data = true) by (apply has_key_true; eauto));
      by rewrite Hk, (prop_lookup _ _ _ Hv).
  - intros Hnone. apply has_key_false in Hnone. by rewrite Hnone.
Qed.

(** X5. An [embeds] value that is neither nullish nor an array makes
    [_update] throw a [TypeError]; by then the blocks before it have written:
    the embeds are as they were, while content, mentions and the deletion flag
    have taken what the payload brought. *)
Theorem update_throws_after_writing w this m data v :
  heap w !! this = Some m →
  data !! "embeds" = Some v →
  match v with JS.Undefined | JS.Null | JS.Array _ => False | _ => True end →
  (_update this data w).1 = Throw TypeError ∧
  ∃ m', heap (_update this data w).2 !! this = Some m' ∧
    embeds m' = embeds m ∧
    (∀ c, data !! "content" = Some c → c ≠ JS.Undefined → content m' = c) ∧
    (∀ x, data !! "mentions" = Some x → mentions m' = x) ∧
    (is_Some (data !! "deletedAt") → deleted m' = true).
Proof.
  intros Hm Hv Hbad.
  assert (Hk : JS.has_key "embeds" data = true) by (apply has_key_true; eauto).
  rewrite (_update_run this data m) by done. cbn [fst snd]. split.
  - rewrite (update_result_embeds _ _ _ Hv). by destruct v.
  - exists (updated data m). split; [apply put_lookup|]. repeat split.
    + rewrite updated_embeds, Hk, (prop_lookup _ _ _ Hv). by destruct v.
    + intros c Hc Hdef. rewrite updated_content. unfold update_content.
      assert (Hkc : JS.has_key "content" data = true) by (apply has_key_true; eauto).
      rewrite Hkc, (prop_lookup _ _ _ Hc). by destruct c.
    + intros x Hx. rewrite updated_mentions.
      assert (Hkm : JS.has_key "mentions" data = true) by (apply has_key_true; eauto).
      by rewrite Hkm, (prop_lookup _ _ _ Hx).
    + intros Hd. rewrite updated_deleted. apply has_key_true in Hd. by rewrite Hd.
Qed.

Lemma updated_idempotent data m : updated data (updated data m) = updated data m.
Proof.
  unfold updated, update_embeds, update_deletedAt, update_updatedAt,
    update_mentions, update_content.
  repeat case_match; reflexivity.
Qed.

(** X7. Applying the same payload twice is the same as applying it once:
    the second call returns or throws as the first did and leaves the world
    the first left.  This holds for every receiver and payload. *)
Theorem update_is_idempotent w this data :
  _update this data (_update this data w).2 = _update this data w.
Proof.
  destruct (heap w !! this) as [m|] eqn:Hm.
  - rewrite (_update_run this data m w) by done. cbn [snd].
    rewrite (_update_run this data (updated data m)) by apply put_lookup.
    by rewrite put_put, updated_idempotent.
  - by rewrite _update_no_object.
Qed.

Lemma _update_frame w this data :
  caches (_update this data w).2 = caches w ∧
  remote (_update this data w).2 = remote w ∧
  outbox (_update this data w).2 = outbox w.
Proof.
  destruct (heap w !! this) as [m|] eqn:Hm.
  - by rewrite (_update_run this data m w).
  - by rewrite _update_no_object.
Qed.

(** X14. [_update] writes the receiver and nothing else: every other
    instance, the four caches, the remote layer and the list of requests sent
    are as before; this holds for every receiver and payload. *)
Theorem update_touches_only_the_receiver w this data :
  (∀ l, l ≠ this → heap (_update this data w).2 !! l = heap w !! l) ∧
  caches (_update this data w).2 = caches w ∧
  remote (_update this data w).2 = remote w ∧
  outbox (_update this data w).2 = outbox w.
Proof.
  split; [|apply _update_frame].
  intros l Hl. destruct (heap w !! this) as [m|] eqn:Hm.
  - rewrite (_update_run this data m w) by done. cbn [snd]. by apply put_lookup_ne.
  - by rewrite _update_no_object.
Qed.

(** *** The constructor *)

Lemma lookup_with_key_ne {A : Type} (k k' : string) (inj : A → JS.Value)
    (o : option A) (obj : gmap string JS.Value) :
  k ≠ k' → with_key k inj o obj !! k' = obj !! k'.
Proof. intros Hne. destruct o; simpl; [by apply lookup_insert_ne|done]. Qed.

Lemma lookup_with_key_eq {A : Type} (k : string) (inj : A → JS.Value)
    (o : option A) (obj : gmap string JS.Value) :
  with_key k inj o obj !! k =
  match o with
  | Some a => Some (inj a)
  | None => obj !! k
  end.
Proof. destruct o; simpl; [apply lookup_insert_eq|done]. Qed.

Ltac object_lookup :=
  unfold object_of;
  repeat first
    [ rewrite lookup_with_key_ne by discriminate
    | rewrite lookup_insert_ne by discriminate
    | rewrite lookup_with_key_eq; case_match; [reflexivity|]
    | rewrite lookup_empty ];
  try reflexivity.

Lemma object_of_content (d : ChatMessagePayload) :
  object_of d !! "content" = JS.Str <$> payload_content d.
Proof. object_lookup. Qed.

Lemma object_of_mentions (d : ChatMessagePayload) :
  object_of d !! "mentions" = payload_mentions d.
Proof. object_lookup. Qed.

Lemma object_of_updatedAt (d : ChatMessagePayload) :
  object_of d !! "updatedAt" = JS.Str <$> payload_updatedAt d.
Proof. object_lookup. Qed.

Lemma object_of_deletedAt (d : ChatMessagePayload) :
  object_of d !! "deletedAt" = None.
Proof. object_lookup. Qed.

Lemma object_of_embeds (d : ChatMessagePayload) :
  object_of d !! "embeds" = JS.Array <$> payload_embeds d.
Proof. object_lookup. Qed.

Lemma has_key_lookup k data :
  JS.has_key k data = bool_decide (is_Some (data !! k)).
Proof. reflexivity. Qed.

Lemma new_Message_run (d : ChatMessagePayload) w :
  new_Message d w =
    (update_result (fresh (dom (heap w))) (object_of d),
     put (fresh (dom (heap w))) (updated (object_of d) (constructed d)) w).
Proof.
  change (new_Message d w)
    with (_update (fresh (dom (heap w))) (object_of d)
            (put (fresh (dom (heap w))) (constructed d) w)).
  rewrite (_update_run _ _ (constructed d)) by apply put_lookup.
  by rewrite put_put.
Qed.

Lemma update_result_object_of l (d : ChatMessagePayload) :
  update_result l (object_of d) =
  match map_new_Embed (default [] (payload_embeds d)) with
  | Normal _ => Normal l
  | Throw e => Throw e
  end.
Proof.
  unfold update_result, JS.has_key, JS.prop. rewrite object_of_embeds.
  by destruct (payload_embeds d).
Qed.

Lemma fresh_not_live w : heap w !! fresh (dom (heap w)) = None.
Proof. apply not_elem_of_dom, is_fresh. Qed.


(** X1. [new Message(client, data)] returns when [new Embed] returns on
    every embed of the payload, and throws the exception of the first
    [new Embed] that throws.  When it returns, the instance is at a location
    that held none before.  Either way every instance that was there is
    unchanged, and the caches, the remote layer and the requests sent are
    untouched: the constructor registers the message nowhere. *)
Theorem construction_is_fresh_and_framed (d : ChatMessagePayload) w :
  (∀ es, Forall2 (λ x e, new_Embed x = Normal e) (default [] (payload_embeds d)) es →
     (new_Message d w).1 = Normal (fresh (dom (heap w)))) ∧
  (∀ pre x post err, payload_embeds d = Some (pre ++ x :: post)%list →
     Forall (λ y, ∃ e, new_Embed y = Normal e) pre →
     new_Embed x = Throw err →
     (new_Message d w).1 = Throw err) ∧
  (∀ l, (new_Message d w).1 = Normal l →
     l = fresh (dom (heap w)) ∧ heap w !! l = None
     ∧ is_Some (heap (new_Message d w).2 !! l)) ∧
  (∀ l m, heap w !! l = Some m → heap (new_Message d w).2 !! l = Some m) ∧
  caches (new_Message d w).2 = caches w ∧
  remote (new_Message d w).2 = remote w ∧
  outbox (new_Message d w).2 = outbox w.
Proof.
  rewrite new_Message_run. cbn [fst snd].
  split; [|split; [|split; [|split; [|done]]]].
  - intros es Hes. rewrite update_result_object_of.
    apply map_new_Embed_Normal in Hes. by rewrite Hes.
  - intros pre x post err Hd Hpre Hx. rewrite update_result_object_of, Hd. simpl.
    by rewrite (map_new_Embed_Throw pre post x err).
  - intros l Hl. apply update_result_Normal in Hl as ->.
    split; [done|]. split; [apply fresh_not_live|]. rewrite put_lookup. eauto.
  - intros l m Hl. rewrite put_lookup_ne; [done|].
    intros Heq. rewrite <- Heq, fresh_not_live in Hl. discriminate.
Qed.

(** X2. The state of a message whose construction returned.  Its content is
    a string, the payload's or the empty one; it is not deleted and has no
    deletion timestamp; [_updatedAt] is the parse of the payload's
    [updatedAt] when that is a non-empty string and [null] otherwise;
    mentions are the payload's, or [undefined]; the embeds are those [new
    Embed] made of the payload's, one per element and in order; [isReply] is
    true as soon as the payload has [replyMessageIds], an empty list
    included. *)
Theorem constructed_message_state (d : ChatMessagePayload) w l :
  (new_Message d w).1 = Normal l →
  ∃ m', heap (new_Message d w).2 !! l = Some m' ∧
    content m' = JS.Str (default "" (payload_content d)) ∧
    deleted m' = false ∧
    _deletedAt m' = None ∧
    _updatedAt m' =
      match payload_updatedAt d with
      | Some s => if String.eqb s "" then None else Some (Date_parse (JS.Str s))
      | None => None
      end ∧
    mentions m' = default JS.Undefined (payload_mentions d) ∧
    Forall2 (λ x e, new_Embed x = Normal e)
      (default [] (payload_embeds d)) (embeds m') ∧
    (isReply m' = true ↔ is_Some (payload_replyMessageIds d)) ∧
    replyMessageIds m' = default [] (payload_replyMessageIds d) ∧
    id m' = payload_id d ∧
    channelId m' = payload_channelId d ∧
    serverId m' = payload_serverId d ∧
    createdById m' = payload_createdBy d ∧
    createdByWebhookId m' = payload_createdByWebhookId d ∧
    _createdAt m' = Date_parse (JS.Str (payload_createdAt d)).
Proof.
  rewrite new_Message_run. cbn [fst snd]. intros Hl.
  pose proof (update_result_Normal _ _ _ Hl) as ->.
  rewrite update_result_object_of in Hl.
  destruct (map_new_Embed (default [] (payload_embeds d))) as [es|err] eqn:Hes;
    [clear Hl|discriminate].
  exists (updated (object_of d) (constructed d)).
  split; [apply put_lookup|].
  pose proof (updated_readonly (object_of d) (constructed d)) as Hro.
  unfold readonly in Hro. simpl in Hro.
  injection Hro as Hid Hch Hsv _ _ Hrp _ _ Hcb Hir Hwh Hca.
  rewrite updated_content, updated_deleted, updated__deletedAt,
    updated__updatedAt, updated_mentions, updated_embeds.
  unfold update_content, JS.has_key, JS.prop.
  rewrite object_of_content, object_of_deletedAt, object_of_updatedAt,
    object_of_mentions, object_of_embeds.
  rewrite Hid, Hch, Hsv, Hrp, Hcb, Hir, Hwh, Hca.
  unfold constructed.
  repeat split.
  - destruct (payload_content d); reflexivity.
  - destruct (payload_updatedAt d) as [s|]; [|reflexivity].
    change (JS.ToBoolean (default JS.Undefined (JS.Str <$> Some s)))
      with (negb (String.eqb s "")).
    destruct (String.eqb s ""); reflexivity.
  - destruct (payload_mentions d); reflexivity.
  - apply map_new_Embed_Normal.
    destruct (payload_embeds d) as [xs|]; simpl in *.
    + by rewrite Hes.
    + by injection Hes as <-.
  - apply bool_decide_eq_true.
  - apply bool_decide_eq_true.
Qed.

(** *** Invariants of runs *)

Lemma effect_on_readonly this (o : Op) m : readonly (effect_on this o m) = readonly m.
Proof.
  destruct o as [l c|d]; simpl; [|done].
  destruct c; try done. case_decide; [apply updated_readonly|done].
Qed.

Lemma foldl_effect_on_readonly this (ops : list Op) m :
  readonly (foldl (λ m' o, effect_on this o m') m ops) = readonly m.
Proof.
  revert m. induction ops as [|o ops IH]; intros m; simpl; [done|].
  by rewrite IH, effect_on_readonly.
Qed.

(** X6. The twelve [readonly] fields of an instance keep their values through
    any run of method calls and constructions. *)
Theorem readonly_fields_never_change w this m :
  heap w !! this = Some m →
  ∀ ops, ∃ m', heap (run ops w) !! this = Some m' ∧ readonly m' = readonly m.
Proof.
  intros Hm ops.
  exists (foldl (λ m' o, effect_on this o m') m ops).
  split.
  - by apply run_lookup.
  - apply foldl_effect_on_readonly.
Qed.

Lemma step_lookup_inv (o : Op) w l m' :
  heap (step o w) !! l = Some m' →
  (∃ m, heap w !! l = Some m ∧ m' = effect_on l o m) ∨
  (∃ d, o = construct d ∧ heap w !! l = None
        ∧ m' = updated (object_of d) (constructed d)).
Proof.
  intros Hl'. destruct (heap w !! l) as [m|] eqn:Hl.
  - left. exists m. split; [done|].
    rewrite (step_lookup o l m w Hl) in Hl'. congruence.
  - right. destruct o as [l0 c|d]; simpl in Hl'.
    + exfalso. destruct c;
        try (rewrite invoke_heap in Hl' by discriminate; congruence).
      simpl in Hl'. destruct (heap w !! l0) as [m0|] eqn:Hl0.
      * rewrite (_update_run l0 data m0 w Hl0) in Hl'. cbn [snd] in Hl'.
        rewrite put_lookup_ne in Hl' by congruence. congruence.
      * rewrite _update_no_object in Hl' by done. congruence.
    + exists d. split; [done|]. split; [done|].
      rewrite new_Message_run in Hl'. cbn [snd] in Hl'.
      destruct (decide (fresh (dom (heap w)) = l)) as [<-|Hne].
      * rewrite put_lookup in Hl'. congruence.
      * rewrite put_lookup_ne in Hl' by done. congruence.
Qed.

Lemma updated_deletion_recorded data m :
  deletion_recorded m → deletion_recorded (updated data m).
Proof.
  unfold deletion_recorded. rewrite updated_deleted, updated__deletedAt.
  destruct (JS.has_key "deletedAt" data); simpl; [|done].
  intros _. split; eauto.
Qed.

(** X8. [deleted] and [_deletedAt] go together.  If in every instance the
    flag is up exactly when a deletion timestamp is stored, this is still so
    after any run of method calls and constructions, for the instances that
    were there and for the new ones. *)
Theorem deleted_goes_with_its_timestamp w :
  (∀ l m, heap w !! l = Some m → deletion_recorded m) →
  ∀ ops l m, heap (run ops w) !! l = Some m → deletion_recorded m.
Proof.
  intros Hw ops. revert w Hw.
  induction ops as [|o ops IH]; intros w Hw l m Hl; simpl in Hl; [by eapply Hw|].
  eapply IH; [|exact Hl].
  clear l m Hl. intros l m' Hl.
  apply step_lookup_inv in Hl as [(m & Hm & ->)|(d & -> & _ & ->)].
  - specialize (Hw l m Hm).
    destruct o as [l0 c|d]; simpl; [|done].
    destruct c; try done. case_decide; [by apply updated_deletion_recorded|done].
  - apply updated_deletion_recorded. unfold deletion_recorded. simpl.
    split; [discriminate|]. intros [x Hx]. discriminate.
Qed.

Lemma invoke_sent l (c : Call) w :
  (∀ data, c ≠ call__update data) →
  invoke l c w = w ∨ ∃ r rm, invoke l c w = sent r rm w.
Proof.
  intros Hc. destruct c; try (by destruct (Hc data));
    simpl; unfold_method;
    repeat first
      [ progress simpl
      | match goal with
        | |- context [match heap w !! l with _ => _ end] => destruct (heap w !! l)
        | |- context [let (_, _) := dispatch ?r ?s in _] => destruct (dispatch r s)
        | |- context [match ?o with Some _ => _ | None => _ end] => destruct o
        | |- context [if ?b then _ else _] => destruct b
        end ];
    first [ left; reflexivity | right; eexists _, _; reflexivity ].
Qed.

Lemma invoke_caches l (c : Call) w :
  caches (invoke l c w) = caches w ∧ outbox w `prefix_of` outbox (invoke l c w).
Proof.
  destruct c as [data| | | | | | | | | | | | | | |];
    [ simpl; destruct (_update_frame w l data) as (Hc & _ & Ho); by rewrite Hc, Ho
    | .. ];
    match goal with
    | |- context [invoke l ?c w] =>
        destruct (invoke_sent l c w) as [->|(r & rm & ->)];
        [ intros ?; discriminate
        | done
        | split; [done|]; simpl; by apply prefix_app_r ]
    end.
Qed.

Lemma step_caches (o : Op) w :
  caches (step o w) = caches w ∧ outbox w `prefix_of` outbox (step o w).
Proof.
  destruct o as [l c|d]; simpl; [apply invoke_caches|].
  by rewrite new_Message_run.
Qed.

Lemma run_caches_eq (ops : list Op) w : caches (run ops w) = caches w.
Proof.
  revert w. induction ops as [|o ops IH]; intros w; simpl; [done|].
  rewrite IH. apply step_caches.
Qed.

(** X13. No method of the class and no construction writes a cache of the
    client, and none takes back or reorders a request: after any run the four
    caches are as before and the requests sent before are the first of those
    sent now. *)
Theorem runs_keep_caches_and_requests (ops : list Op) w :
  caches (run ops w) = caches w ∧ outbox w `prefix_of` outbox (run ops w).
Proof.
  revert w. induction ops as [|o ops IH]; intros w; simpl; [done|].
  destruct (IH (step o w)) as [Hc Hp].
  destruct (step_caches o w) as [Hc' Hp'].
  split.
  - congruence.
  - by etrans.
Qed.

(** X17. What the accessors [url], [authorId], [author], [member],
    [channel] and [server] return for an instance is the same after any run
    of method calls and constructions: updates never change where a message
    is or who wrote it. *)
Theorem accessors_are_stable w this m (ops : list Op) :
  heap w !! this = Some m →
  (url this (run ops w)).1 = (url this w).1 ∧
  (authorId this (run ops w)).1 = (authorId this w).1 ∧
  (author this (run ops w)).1 = (author this w).1 ∧
  (member this (run ops w)).1 = (member this w).1 ∧
  (channel this (run ops w)).1 = (channel this w).1 ∧
  (server this (run ops w)).1 = (server this w).1.
Proof.
  intros Hm.
  pose proof (run_lookup ops this m w Hm) as Hm'.
  pose proof (foldl_effect_on_readonly this ops m) as Hro.
  pose proof (run_caches_eq ops w) as Hc.
  set (m' := foldl (λ m0 o, effect_on this o m0) m ops) in *.
  unfold readonly in Hro. unfold caches in Hc.
  injection Hro as Hid Hch Hsv _ _ _ _ _ Hcb _ Hwh _.
  injection Hc as Hus Hme Hcn Hse.
  rewrite (url_run this m' (run ops w)), (url_run this m w) by done.
  rewrite (authorId_run this m' (run ops w)), (authorId_run this m w) by done.
  rewrite (author_run this m' (run ops w)), (author_run this m w) by done.
  rewrite (member_run this m' (run ops w)), (member_run this m w) by done.
  rewrite (channel_run this m' (run ops w)), (channel_run this m w) by done.
  rewrite (server_run this m' (run ops w)), (server_run this m w) by done.
  cbn [fst]. by rewrite Hid, Hch, Hsv, Hcb, Hwh, Hus, Hme, Hcn, Hse.
Qed.

(** *** Date accessors *)

Lemma deletedAt_run this m w :
  heap w !! this = Some m →
  deletedAt this w =
    (Normal (match _deletedAt m with
             | Some n => if JS.ToBoolean (JS.Num n) then Some (JS.new_Date n) else None
             | None => None
             end), w).
Proof.
  intros Hm. run_on Hm. destruct (_deletedAt m) as [n|]; [|done].
  destruct n as [|z]; [done|]. by destruct (z =? 0).
Qed.

Lemma updatedAt_run this m w :
  heap w !! this = Some m →
  updatedAt this w =
    (Normal (match _updatedAt m with
             | Some n => if JS.ToBoolean (JS.Num n) then Some (JS.new_Date n) else None
             | None => None
             end), w).
Proof.
  intros Hm. run_on Hm. destruct (_updatedAt m) as [n|]; [|done].
  destruct n as [|z]; [done|]. by destruct (z =? 0).
Qed.

(** X9. After an [_update] with the key [deletedAt] the message is deleted,
    but the accessor [deletedAt] gives a date only when [Date.parse] read the
    value as a time other than 0: for a value it cannot read ([NaN]), and for
    the epoch itself, the accessor is [null] on a deleted message. *)
Theorem deletedAt_accessor_after_deletion w this m data v :
  heap w !! this = Some m →
  data !! "deletedAt" = Some v →
  ∃ m', heap (_update this data w).2 !! this = Some m' ∧
    deleted m' = true ∧
    deletedAt this (_update this data w).2 =
      (Normal (match Date_parse v with
               | JS.Finite z => if z =? 0 then None else Some (JS.new_Date (JS.Finite z))
               | JS.NaN => None
               end),
       (_update this data w).2).
Proof.
  intros Hm Hv.
  assert (Hk : JS.has_key "deletedAt" data = true) by (apply has_key_true; eauto).
  exists (updated data m).
  rewrite (_update_run this data m) by done. cbn [snd].
  split; [apply put_lookup|]. split.
  - by rewrite updated_deleted, Hk.
  - rewrite (deletedAt_run this (updated data m)) by apply put_lookup.
    rewrite updated__deletedAt, Hk, (prop_lookup _ _ _ Hv).
    destruct (Date_parse v) as [|z]; [done|]. simpl. by destruct (z =? 0).
Qed.

(** X16. After an [_update] with the key [updatedAt], the accessor
    [updatedAt] gives a date exactly when the value is truthy and
    [Date.parse] read it as a time other than 0; it is [null] for an empty
    string, for a value that cannot be read, and for the epoch. *)
Theorem updatedAt_accessor_after_update w this m data v :
  heap w !! this = Some m →
  data !! "updatedAt" = Some v →
  updatedAt this (_update this data w).2 =
    (Normal (if JS.ToBoolean v
             then match Date_parse v with
                  | JS.Finite z =>
                      if z =? 0 then None else Some (JS.new_Date (JS.Finite z))
                  | JS.NaN => None
                  end
             else None),
     (_update this data w).2).
Proof.
  intros Hm Hv.
  assert (Hk : JS.has_key "updatedAt" data = true) by (apply has_key_true; eauto).
  rewrite (_update_run this data m) by done. cbn [snd].
  rewrite (updatedAt_run this (updated data m)) by apply put_lookup.
  rewrite updated__updatedAt, Hk, (prop_lookup _ _ _ Hv).
  destruct (JS.ToBoolean v); [|done].
  destruct (Date_parse v) as [|z]; [done|]. simpl. by destruct (z =? 0).
Qed.

(** *** The other actions *)

Lemma object_get_spread_set_eq k v (o : list (string * JS.Value)) :
  object_get k (JS.spread_set k v o) = Some v.
Proof.
  induction o as [|[k' v'] o IH]; simpl.
  - by rewrite String.eqb_refl.
  - destruct (String.eqb k' k) eqn:E; simpl; by rewrite E.
Qed.

Lemma object_get_spread_set_ne k k0 v (o : list (string * JS.Value)) :
  k0 ≠ k → object_get k0 (JS.spread_set k v o) = object_get k0 o.
Proof.
  intros Hne. induction o as [|[k' v'] o IH]; simpl.
  - apply String.eqb_neq in Hne. rewrite String.eqb_sym. by rewrite Hne.
  - destruct (String.eqb k' k) eqn:E; simpl.
    + apply String.eqb_eq in E. subst k'.
      assert (E' : String.eqb k k0 = false)
        by (rewrite String.eqb_sym; by apply String.eqb_neq).
      by rewrite E'.
    + by rewrite IH.
Qed.

Lemma spread_set_keys k v (o : list (string * JS.Value)) :
  NoDup o.*1 → NoDup (JS.spread_set k v o).*1.
Proof.
  assert (Hin : ∀ o' k0, k0 ∈ (JS.spread_set k v o').*1 → k0 = k ∨ k0 ∈ o'.*1).
  { induction o' as [|[k' v'] o' IH]; intros k0; simpl.
    - rewrite list_elem_of_singleton. by left.
    - destruct (String.eqb k' k) eqn:E; simpl.
      + by right.
      + rewrite !elem_of_cons. intros [->|Hk]; [by right; left|].
        destruct (IH _ Hk); [by left|by right; right]. }
  induction o as [|[k' v'] o IH]; simpl; intros Hnd.
  - apply NoDup_singleton.
  - apply NoDup_cons in Hnd as [Hk' Hnd].
    destruct (String.eqb k' k) eqn:E; simpl.
    + by apply NoDup_cons.
    + apply NoDup_cons. split; [|by apply IH].
      intros Hk. apply Hin in Hk as [->|Hk]; [|done].
      by rewrite String.eqb_refl in E.
Qed.

(** X10. [reply] sends one [messages.send] for this channel whose content
    has [replyMessageIds] set to the list holding this message's id alone,
    whatever [replyMessageIds] the caller's content had; every other field of
    the normalised content is passed on as it is, no field name is doubled,
    and no instance is written. *)
Theorem reply_targets_this_message w this m content0 :
  heap w !! this = Some m →
  ∃ fields p w',
    reply this content0 w = (Normal p, w') ∧
    outbox w' = (outbox w ++ [messages_send (channelId m) (JS.Object fields)])%list ∧
    object_get "replyMessageIds" fields = Some (JS.Array [JS.Str (id m)]) ∧
    (∀ k, k ≠ "replyMessageIds" →
       object_get k fields = object_get k (resolveContentToData content0)) ∧
    (NoDup (resolveContentToData content0).*1 → NoDup fields.*1) ∧
    heap w' = heap w.
Proof.
  intros Hm. run_on Hm.
  destruct (dispatch _ _) as [p rm] eqn:Hd.
  eexists _, p, _. split; [reflexivity|]. simpl.
  split; [done|]. split; [apply object_get_spread_set_eq|].
  split; [intros k Hk; by apply object_get_spread_set_ne|].
  split; [apply spread_set_keys|done].
Qed.

(** X11. [send] and [delete] each make one request, for this message's
    channel (and id), hand back the promise of the manager as it is, and
    write no instance. *)
Theorem send_and_delete_delegate w this m content0 :
  heap w !! this = Some m →
  ∃ p q w1 w2,
    send this content0 w = (Normal p, w1) ∧
    delete_ this w = (Normal q, w2) ∧
    outbox w1 = (outbox w ++ [messages_send (channelId m) content0])%list ∧
    outbox w2 = (outbox w ++ [messages_delete (channelId m) (id m)])%list ∧
    heap w1 = heap w ∧ heap w2 = heap w ∧
    p = (dispatch (messages_send (channelId m) content0) (remote w)).1 ∧
    q = (dispatch (messages_delete (channelId m) (id m)) (remote w)).1.
Proof.
  intros Hm.
  assert (Hs : send this content0 w =
    (Normal (dispatch (messages_send (channelId m) content0) (remote w)).1,
     sent (messages_send (channelId m) content0)
       (dispatch (messages_send (channelId m) content0) (remote w)).2 w)).
  { run_on Hm. by destruct (dispatch _ _). }
  assert (Hd : delete_ this w =
    (Normal (dispatch (messages_delete (channelId m) (id m)) (remote w)).1,
     sent (messages_delete (channelId m) (id m))
       (dispatch (messages_delete (channelId m) (id m)) (remote w)).2 w)).
  { run_on Hm. by destruct (dispatch (messages_delete _ _) _). }
  rewrite Hs, Hd. eexists _, _, _, _. repeat split.
Qed.

(** X12. [addReaction] and [deleteReaction] each make one request naming this
    message's channel, its id and the emote, and write no instance.  Their
    promise is fulfilled with [undefined], whatever the answer was, when the
    request is fulfilled; it is rejected for the same reason when the request
    is rejected. *)
Theorem reactions_delegate w this m emoteId :
  heap w !! this = Some m →
  ∃ p q w1 w2,
    addReaction this emoteId w = (Normal p, w1) ∧
    deleteReaction this emoteId w = (Normal q, w2) ∧
    outbox w1 = (outbox w ++ [channelMessageReactionCreate (channelId m) (id m) emoteId])%list ∧
    outbox w2 = (outbox w ++ [channelMessageReactionDelete (channelId m) (id m) emoteId])%list ∧
    heap w1 = heap w ∧ heap w2 = heap w ∧
    (∀ e x, (dispatch (channelMessageReactionCreate (channelId m) (id m) emoteId)
               (remote w)).1 e = JS.Fulfilled x → p e = JS.Fulfilled ()) ∧
    (∀ e r, (dispatch (channelMessageReactionCreate (channelId m) (id m) emoteId)
               (remote w)).1 e = JS.Rejected r → p e = JS.Rejected r) ∧
    (∀ e x, (dispatch (channelMessageReactionDelete (channelId m) (id m) emoteId)
               (remote w)).1 e = JS.Fulfilled x → q e = JS.Fulfilled ()) ∧
    (∀ e r, (dispatch (channelMessageReactionDelete (channelId m) (id m) emoteId)
               (remote w)).1 e = JS.Rejected r → q e = JS.Rejected r).
Proof.
  intros Hm.
  assert (Ha : addReaction this emoteId w =
    (let r := channelMessageReactionCreate (channelId m) (id m) emoteId in
     (Normal (JS.then_ (dispatch r (remote w)).1 (λ _, ())),
      sent r (dispatch r (remote w)).2 w))).
  { run_on Hm. by destruct (dispatch _ _). }
  assert (Hd : deleteReaction this emoteId w =
    (let r := channelMessageReactionDelete (channelId m) (id m) emoteId in
     (Normal (JS.then_ (dispatch r (remote w)).1 (λ _, ())),
      sent r (dispatch r (remote w)).2 w))).
  { run_on Hm. by destruct (dispatch (channelMessageReactionDelete _ _ _) _). }
  rewrite Ha, Hd. cbv zeta.
  eexists _, _, _, _. split; [reflexivity|]. split; [reflexivity|].
  repeat split; intros e x Hx; unfold JS.then_; by rewrite Hx.
Qed.

(** *** Updates of separate keys *)

Lemma Message_eq (m1 m2 : Message) :
  readonly m1 = readonly m2 →
  content m1 = content m2 →
  mentions m1 = mentions m2 →
  _updatedAt m1 = _updatedAt m2 →
  deleted m1 = deleted m2 →
  _deletedAt m1 = _deletedAt m2 →
  embeds m1 = embeds m2 →
  m1 = m2.
Proof.
  destruct m1, m2. unfold readonly. simpl.
  intros [= -> -> -> -> -> -> -> -> -> -> -> ->] -> -> -> -> -> ->.
  reflexivity.
Qed.

Lemma updated_content_if data m :
  content (updated data m) =
  if JS.has_key "content" data
     && negb (String.eqb (JS.typeof (JS.prop data "content")) "undefined")
  then JS.prop data "content"
  else content m.
Proof. rewrite updated_content. unfold update_content. by case_match. Qed.

Lemma independent_key d1 d2 k :
  independent d1 d2 → k ∈ recognized →
  JS.has_key k d1 = false ∨ JS.has_key k d2 = false.
Proof.
  intros Hind Hk. unfold independent in Hind.
  rewrite Forall_forall in Hind. destruct (Hind k Hk) as [Hn|Hn].
  - left. by apply has_key_false.
  - right. by apply has_key_false.
Qed.

Lemma updated_commute d1 d2 m :
  independent d1 d2 → updated d1 (updated d2 m) = updated d2 (updated d1 m).
Proof.
  intros Hind. apply Message_eq.
  - by rewrite !updated_readonly.
  - rewrite !updated_content_if.
    destruct (independent_key d1 d2 "content" Hind) as [Hk|Hk];
      [unfold recognized; set_solver| |]; rewrite Hk; simpl; by case_match.
  - rewrite !updated_mentions.
    destruct (independent_key d1 d2 "mentions" Hind) as [Hk|Hk];
      [unfold recognized; set_solver| |]; rewrite Hk; by case_match.
  - rewrite !updated__updatedAt.
    destruct (independent_key d1 d2 "updatedAt" Hind) as [Hk|Hk];
      [unfold recognized; set_solver| |]; rewrite Hk; by case_match.
  - rewrite !updated_deleted.
    destruct (JS.has_key "deletedAt" d1), (JS.has_key "deletedAt" d2); done.
  - rewrite !updated__deletedAt.
    destruct (independent_key d1 d2 "deletedAt" Hind) as [Hk|Hk];
      [unfold recognized; set_solver| |]; rewrite Hk; by case_match.
  - rewrite !updated_embeds.
    destruct (independent_key d1 d2 "embeds" Hind) as [Hk|Hk];
      [unfold recognized; set_solver| |]; rewrite Hk; by repeat case_match.
Qed.

(** X15. Two payloads that share none of the five keys can be applied in
    either order: the world after both is the same, for every receiver, also
    when one of the calls throws. *)
Theorem updates_of_separate_keys_commute w this d1 d2 :
  independent d1 d2 →
  (_update this d1 (_update this d2 w).2).2
  = (_update this d2 (_update this d1 w).2).2.
Proof.
  intros Hind. destruct (heap w !! this) as [m|] eqn:Hm.
  - rewrite (_update_run this d2 m w), (_update_run this d1 m w) by done.
    cbn [snd].
    rewrite (_update_run this d1 (updated d2 m)) by apply put_lookup.
    rewrite (_update_run this d2 (updated d1 m)) by apply put_lookup.
    cbn [snd]. by rewrite !put_put, updated_commute.
  - by rewrite !_update_no_object by (by rewrite ?_update_no_object).
Qed.

End Properties.


(** ** The properties on the concrete setting *)

#[local] Existing Instance sample_imports.

Lemma update_content_by_presence_witness :
  heap sample_world !! 1%positive = Some sample_message ∧
  ∃ m', heap (_update 1%positive {["content" := JS.Str ""]} sample_world).2
          !! 1%positive = Some m'
        ∧ content m' = JS.Str "".
Proof.
  split; [reflexivity|].
  destruct (update_content_by_presence (H := sample_imports) sample_world
              1%positive sample_message {["content" := JS.Str ""]})
    as (m' & Hm' & _ & Hempty & _); [reflexivity|].
  exists m'. split; [exact Hm'|]. apply Hempty. reflexivity.
Defined.

Lemma deleted_is_a_latch_witness :
  heap sample_world !! 1%positive = Some sample_message ∧
  ∃ m', heap (run [on 1%positive (call__update {["content" := JS.Str "again"]});
                   on 1%positive (call_edit (JS.Str "edited"));
                   construct hello]
                (_update 1%positive
                   {["deletedAt" := JS.Str "2022-01-02T00:00:00.000Z"]}
                   sample_world).2) !! 1%positive = Some m'
        ∧ deleted m' = true.
Proof.
  split; [reflexivity|].
  destruct (deleted_is_a_latch (H := sample_imports) sample_world 1%positive
              sample_message) as [Hlatch _]; [reflexivity|].
  apply Hlatch. eexists. reflexivity.
Defined.

Lemma deletedAt_follows_the_last_deletion_witness :
  heap deleted_once !! 1%positive
    = Some (set__deletedAt (Some (JS.Finite 1641081600000))
              (set_deleted true sample_message)) ∧
  ∃ m', heap deleted_twice !! 1%positive = Some m'
        ∧ _deletedAt m' = Some (JS.Finite 1641168000000).
Proof.
  split; [reflexivity|].
  destruct (deletedAt_follows_the_last_deletion (H := sample_imports)
              deleted_once 1%positive
              (set__deletedAt (Some (JS.Finite 1641081600000))
                 (set_deleted true sample_message)))
    as [Hset _]; [reflexivity|].
  apply (Hset {["deletedAt" := JS.Str "2022-01-03T00:00:00.000Z"]}
              (JS.Str "2022-01-03T00:00:00.000Z")).
  reflexivity.
Defined.

Lemma update_updatedAt_by_presence_witness :
  heap sample_world !! 1%positive = Some sample_message ∧
  ∃ m', heap (_update 1%positive
                {["updatedAt" := JS.Str "2022-01-01T00:00:01.000Z"]}
                sample_world).2 !! 1%positive = Some m'
        ∧ _updatedAt m' = Some (JS.Finite 1640995201000).
Proof.
  split; [reflexivity|].
  destruct (update_updatedAt_by_presence (H := sample_imports) sample_world
              1%positive sample_message
              {["updatedAt" := JS.Str "2022-01-01T00:00:01.000Z"]})
    as (m' & Hm' & Hparse & _); [reflexivity|].
  exists m'. split; [exact Hm'|].
  apply (Hparse (JS.Str "2022-01-01T00:00:01.000Z")); reflexivity.
Defined.

Lemma update_frame_and_result_witness :
  heap sample_world !! 1%positive = Some sample_message ∧
  _update 1%positive {["id" := JS.Str "M1"; "channelId" := JS.Str "C1"]} sample_world
    = (Normal 1%positive, sample_world) ∧
  (_update 1%positive
     {["content" := JS.Str "hi"; "embeds" := JS.Array [embed_a; embed_b]]}
     sample_world).1 = Normal 1%positive.
Proof.
  split; [reflexivity|].
  destruct (update_frame_and_result (H := sample_imports) sample_world
              1%positive sample_message
              {["id" := JS.Str "M1"; "channelId" := JS.Str "C1"]})
    as [Hnoop _]; [reflexivity|].
  destruct (update_frame_and_result (H := sample_imports) sample_world
              1%positive sample_message
              {["content" := JS.Str "hi"; "embeds" := JS.Array [embed_a; embed_b]]})
    as (_ & _ & _ & Hmade & _); [reflexivity|].
  split.
  - apply Hnoop. repeat split.
  - apply (Hmade [embed_a; embed_b] [embed_a; embed_b]); [reflexivity|].
    repeat constructor.
Defined.

Lemma authorId_prefers_webhook_witness :
  heap sample_world !! 1%positive = Some sample_message ∧
  authorId 1%positive sample_world = (Normal "W1", sample_world).
Proof.
  split; [reflexivity|].
  destruct (authorId_prefers_webhook (H := sample_imports) sample_world
              1%positive sample_message) as (a & Hrun & _ & _ & Hex);
    [reflexivity|].
  rewrite Hrun. f_equal. f_equal. apply Hex; reflexivity.
Defined.

Lemma url_needs_a_truthy_serverId_witness :
  heap sample_world !! 1%positive = Some sample_message ∧
  ∃ u, url 1%positive sample_world = (Normal u, sample_world)
       ∧ contains u "/chat/C1?messageId=M1".
Proof.
  split; [reflexivity|].
  destruct (url_needs_a_truthy_serverId (H := sample_imports) sample_world
              1%positive sample_message) as (u & Hrun & _ & Hurl);
    [reflexivity|].
  exists u. split; [exact Hrun|].
  destruct (Hurl "S1") as (_ & _ & _ & Hin); [reflexivity|discriminate|].
  exact Hin.
Defined.

Lemma accessors_read_the_caches_witness :
  heap sample_world !! 1%positive = Some sample_message ∧
  author 1%positive sample_world = (Normal (Some 11%positive), sample_world) ∧
  channel 1%positive sample_world = (Normal (Some 13%positive), sample_world) ∧
  member 1%positive sample_world = (Normal (Some 12%positive), sample_world) ∧
  server 1%positive sample_world = (Normal (Some 14%positive), sample_world).
Proof.
  split; [reflexivity|].
  destruct (accessors_read_the_caches (H := sample_imports) sample_world
              1%positive sample_message) as (Ha & Hc & Hms & _);
    [reflexivity|].
  destruct (Hms "S1") as [Hm Hs]; [reflexivity|discriminate|].
  rewrite Ha, Hc, Hm, Hs. repeat split.
Defined.

Lemma edit_writes_no_field_witness :
  heap sample_world !! 1%positive = Some sample_message ∧
  ∃ p w', edit 1%positive (JS.Str "edited") sample_world = (Normal p, w')
          ∧ heap w' !! 1%positive = Some sample_message
          ∧ p (Some true) = JS.Fulfilled 1%positive.
Proof.
  split; [reflexivity|].
  destruct (edit_writes_no_field (H := sample_imports) sample_world 1%positive
              sample_message (JS.Str "edited"))
    as (p & w' & Hrun & Hheap & _ & Hok & _); [reflexivity|].
  exists p, w'. split; [exact Hrun|]. split.
  - rewrite Hheap. reflexivity.
  - apply (Hok (Some true) ()). reflexivity.
Defined.

Lemma member_key_uses_authorId_witness :
  heap sample_world !! 1%positive = Some sample_message ∧
  serverId sample_message = Some "S1" ∧
  "S1" ≠ "" ∧
  member 1%positive sample_world
    = (Normal (members_cache sample_world
                 !! buildMemberKey (Imports := sample_imports) "S1" "W1"),
       sample_world).
Proof.
  split; [reflexivity|]. split; [reflexivity|]. split; [discriminate|].
  destruct (member_key_uses_authorId (H := sample_imports) sample_world
              1%positive sample_message "S1") as (a & _ & _ & Hweb);
    [reflexivity|reflexivity|discriminate|].
  apply Hweb. reflexivity.
Defined.

(** ** Where the code parts from the specification *)

(** C3. A second [_update] with the key [deletedAt] replaces the timestamp
    the first one recorded: 2 January gives way to 3 January. *)
Lemma deletedAt_recorded_twice :
  (_deletedAt <$> heap deleted_once !! 1%positive)
    = Some (Some (JS.Finite 1641081600000)) ∧
  (_deletedAt <$> heap deleted_twice !! 1%positive)
    = Some (Some (JS.Finite 1641168000000)) ∧
  (_deletedAt <$> heap deleted_twice !! 1%positive)
    ≠ (_deletedAt <$> heap deleted_once !! 1%positive).
Proof. repeat split. discriminate. Qed.

(** C5. [_update] does not return the receiver for every payload: it throws
    a [TypeError] on an [embeds] value that is no array, and it throws on an
    array with an embed that [new Embed] rejects. *)
Lemma update_does_not_always_return :
  heap sample_world !! 1%positive = Some sample_message ∧
  (_update 1%positive {["embeds" := JS.Str "none"]} sample_world).1
    = Throw TypeError ∧
  (_update 1%positive {["embeds" := JS.Array [embed_a; embed_garbage]]}
     sample_world).1 ≠ Normal 1%positive.
Proof. repeat split. discriminate. Qed.

(** C7. With the empty string as [serverId], which is not [null], [url] is
    the empty string, and that has no ["C1"] in it. *)
Lemma url_of_empty_serverId :
  heap unserved_world !! 1%positive = Some unserved_message ∧
  serverId unserved_message = Some "" ∧
  channelId unserved_message = "C1" ∧
  url 1%positive unserved_world = (Normal "", unserved_world) ∧
  ¬ contains "" "C1".
Proof.
  split; [reflexivity|]. split; [reflexivity|]. split; [reflexivity|].
  split; [reflexivity|].
  intros (before & after & Heq). destruct before; discriminate.
Qed.

(** C8. With the empty string as [serverId], [server] returns [null] although
    the servers cache has an instance under that key. *)
Lemma server_of_empty_serverId :
  heap unserved_world !! 1%positive = Some unserved_message ∧
  serverId unserved_message = Some "" ∧
  servers_cache unserved_world !! "" = Some 14%positive ∧
  server 1%positive unserved_world = (Normal None, unserved_world).
Proof. repeat split. Qed.

(** C10. With the empty string as [serverId], [member] builds no key: it
    returns [null] although the members cache has an instance under the key
    of that [serverId] and the author id ["W1"]. *)
Lemma member_of_empty_serverId :
  heap unserved_world !! 1%positive = Some unserved_message ∧
  serverId unserved_message = Some "" ∧
  authorId 1%positive unserved_world = (Normal "W1", unserved_world) ∧
  members_cache unserved_world !! buildMemberKey (Imports := sample_imports) "" "W1"
    = Some 12%positive ∧
  member 1%positive unserved_world = (Normal None, unserved_world).
Proof. repeat split. Qed.

(** ** Sample runs *)

Example parse_2022 :
  JS.Date_parse_iso (JS.Str "2022-01-01T00:00:00.000Z") = JS.Finite 1640995200000.
Proof. reflexivity. Qed.

Example parse_epoch :
  JS.Date_parse_iso (JS.Str "1970-01-01T00:00:00.000Z") = JS.Finite 0.
Proof. reflexivity. Qed.

Example parse_leap_day :
  JS.Date_parse_iso (JS.Str "2024-02-29T12:30:15.250Z") = JS.Finite 1709209815250
  ∧ JS.Date_parse_iso (JS.Str "2023-02-29T12:30:15.250Z") = JS.NaN.
Proof. split; reflexivity. Qed.

Example sample_world_lookup :
  heap sample_world !! 1%positive = Some sample_message.
Proof. reflexivity. Qed.

(** Section 8, end to end: M1 arrives with content "hello", then the partial
    update [{content: "hi", updatedAt: t2}]. *)
Example ingest_then_update :
  heap (_update 1%positive
          {["content" := JS.Str "hi"; "updatedAt" := JS.Str "2022-01-01T00:05:00.000Z"]}
          sample_world).2 !! 1%positive
  = Some (set__updatedAt (Some (JS.Finite 1640995500000))
            (set_content (JS.Str "hi") sample_message)).
Proof. reflexivity. Qed.

(** An [embeds] value that is no array: [_update] throws at that block, after
    the blocks before it have written. *)
Example update_embeds_not_an_array :
  _update 1%positive {["content" := JS.Str "hi"; "embeds" := JS.Str "none"]} sample_world
  = (Throw TypeError,
     put 1%positive (set_content (JS.Str "hi") sample_message) sample_world).
Proof. reflexivity. Qed.

Example reply_request :
  outbox (reply 1%positive (JS.Str "ok") sample_world).2
  = [messages_send "C1"
       (JS.Object [("content", JS.Str "ok");
                   ("replyMessageIds", JS.Array [JS.Str "M1"])])].
Proof. reflexivity. Qed.

(** ** More of the class, on the concrete setting *)

Lemma update_mentions_by_presence_witness :
  heap mentioned_world !! 1%positive = Some (set_mentions everyone sample_message) ∧
  mentions (set_mentions everyone sample_message) = everyone ∧
  ∃ m', heap (_update 1%positive {["mentions" := JS.Undefined]} mentioned_world).2
          !! 1%positive = Some m'
        ∧ mentions m' = JS.Undefined.
Proof.
  split; [reflexivity|]. split; [reflexivity|].
  destruct (update_mentions_by_presence (H := sample_imports) mentioned_world
              1%positive (set_mentions everyone sample_message)
              {["mentions" := JS.Undefined]})
    as (m' & Hm' & _ & Hclear & _); [reflexivity|].
  exists m'. split; [exact Hm'|]. apply Hclear. reflexivity.
Defined.

Lemma update_embeds_by_presence_witness :
  heap sample_world !! 1%positive = Some sample_message ∧
  embeds sample_message = [] ∧
  (∃ m', heap (_update 1%positive {["embeds" := JS.Array [embed_a; embed_b]]}
                 sample_world).2 !! 1%positive = Some m'
         ∧ embeds m' = [embed_a; embed_b]) ∧
  (_update 1%positive {["embeds" := JS.Array [embed_a; embed_garbage]]}
     sample_world).1 ≠ Normal 1%positive.
Proof.
  split; [reflexivity|]. split; [reflexivity|]. split.
  - destruct (update_embeds_by_presence (H := sample_imports) sample_world
                1%positive sample_message
                {["embeds" := JS.Array [embed_a; embed_b]]})
      as (m' & Hm' & Harr & _); [reflexivity|].
    exists m'. split; [exact Hm'|].
    destruct (Harr [embed_a; embed_b] [embed_a; embed_b]) as [Hes _];
      [reflexivity|repeat constructor|exact Hes].
  - destruct (update_embeds_by_presence (H := sample_imports) sample_world
                1%positive sample_message
                {["embeds" := JS.Array [embed_a; embed_garbage]]})
      as (m' & _ & _ & Hthrow & _); [reflexivity|].
    destruct (Hthrow [embed_a] embed_garbage [] TypeError)
      as [Hres _]; [reflexivity| |reflexivity|rewrite Hres; discriminate].
    repeat constructor. by exists embed_a.
Defined.

Lemma update_throws_after_writing_witness :
  heap sample_world !! 1%positive = Some sample_message ∧
  ({["content" := JS.Str "hi"; "embeds" := JS.Str "none"]} : gmap string JS.Value)
    !! "embeds" = Some (JS.Str "none") ∧
  (_update 1%positive {["content" := JS.Str "hi"; "embeds" := JS.Str "none"]}
     sample_world).1 = Throw TypeError ∧
  ∃ m', heap (_update 1%positive
                {["content" := JS.Str "hi"; "embeds" := JS.Str "none"]}
                sample_world).2 !! 1%positive = Some m'
        ∧ content m' = JS.Str "hi".
Proof.
  split; [reflexivity|]. split; [reflexivity|].
  destruct (update_throws_after_writing (H := sample_imports) sample_world
              1%positive sample_message
              {["content" := JS.Str "hi"; "embeds" := JS.Str "none"]}
              (JS.Str "none"))
    as (Hthrow & m' & Hm' & _ & Hcontent & _); [reflexivity|reflexivity|exact I|].
  split; [exact Hthrow|]. exists m'. split; [exact Hm'|].
  apply Hcontent; [reflexivity|discriminate].
Defined.

Lemma readonly_fields_never_change_witness :
  heap sample_world !! 1%positive = Some sample_message ∧
  ∃ m', heap (run [on 1%positive (call__update {["deletedAt" := JS.Str "x"]});
                   on 1%positive (call_reply (JS.Str "ok"));
                   construct hello_unserved] sample_world) !! 1%positive = Some m'
        ∧ readonly m' = readonly sample_message.
Proof.
  split; [reflexivity|].
  apply (readonly_fields_never_change (H := sample_imports) sample_world
           1%positive sample_message).
  reflexivity.
Defined.

Lemma deleted_goes_with_its_timestamp_witness :
  (∀ l m, heap sample_client !! l = Some m → deletion_recorded m) ∧
  ∀ m, heap (run [construct hello;
                  on 1%positive (call__update
                                   {["deletedAt" := JS.Str "2022-01-02T00:00:00.000Z"]})]
               sample_client) !! 1%positive = Some m →
       deletion_recorded m.
Proof.
  assert (Hempty : ∀ l m, heap sample_client !! l = Some m → deletion_recorded m).
  { intros l m Hl. simpl in Hl. rewrite lookup_empty in Hl. discriminate. }
  split; [exact Hempty|].
  intros m.
  apply (deleted_goes_with_its_timestamp (H := sample_imports) sample_client Hempty).
Defined.

Lemma deletedAt_accessor_after_deletion_witness :
  heap sample_world !! 1%positive = Some sample_message ∧
  ({["deletedAt" := JS.Str "yesterday"]} : gmap string JS.Value) !! "deletedAt"
    = Some (JS.Str "yesterday") ∧
  ∃ m', heap (_update 1%positive {["deletedAt" := JS.Str "yesterday"]} sample_world).2
          !! 1%positive = Some m'
        ∧ deleted m' = true
        ∧ (deletedAt 1%positive
             (_update 1%positive {["deletedAt" := JS.Str "yesterday"]} sample_world).2).1
          = Normal None.
Proof.
  split; [reflexivity|]. split; [reflexivity|].
  destruct (deletedAt_accessor_after_deletion (H := sample_imports) sample_world
              1%positive sample_message {["deletedAt" := JS.Str "yesterday"]}
              (JS.Str "yesterday"))
    as (m' & Hm' & Hdel & Hget); [reflexivity|reflexivity|].
  exists m'. split; [exact Hm'|]. split; [exact Hdel|].
  rewrite Hget. reflexivity.
Defined.

Lemma updatedAt_accessor_after_update_witness :
  heap updated_world !! 1%positive
    = Some (set__updatedAt (Some (JS.Finite 1640995500000)) sample_message) ∧
  ({["updatedAt" := JS.Str "1970-01-01T00:00:00.000Z"]} : gmap string JS.Value)
    !! "updatedAt" = Some (JS.Str "1970-01-01T00:00:00.000Z") ∧
  (updatedAt 1%positive updated_world).1
    = Normal (Some (JS.new_Date (JS.Finite 1640995500000))) ∧
  (updatedAt 1%positive
     (_update 1%positive {["updatedAt" := JS.Str "1970-01-01T00:00:00.000Z"]}
        updated_world).2).1
  = Normal None.
Proof.
  split; [reflexivity|]. split; [reflexivity|]. split; [reflexivity|].
  rewrite (updatedAt_accessor_after_update (H := sample_imports) updated_world
             1%positive
             (set__updatedAt (Some (JS.Finite 1640995500000)) sample_message)
             {["updatedAt" := JS.Str "1970-01-01T00:00:00.000Z"]}
             (JS.Str "1970-01-01T00:00:00.000Z"));
    reflexivity.
Defined.

Lemma reply_targets_this_message_witness :
  heap sample_world !! 1%positive = Some sample_message ∧
  ∃ fields p w',
    reply 1%positive
      (JS.Object [("replyMessageIds", JS.Array [JS.Str "M0"]); ("content", JS.Str "ok")])
      sample_world = (Normal p, w')
    ∧ object_get "replyMessageIds" fields = Some (JS.Array [JS.Str "M1"])
    ∧ object_get "content" fields = Some (JS.Str "ok").
Proof.
  split; [reflexivity|].
  destruct (reply_targets_this_message (H := sample_imports) sample_world
              1%positive sample_message
              (JS.Object [("replyMessageIds", JS.Array [JS.Str "M0"]);
                          ("content", JS.Str "ok")]))
    as (fields & p & w' & Hrun & _ & Hids & Hrest & _); [reflexivity|].
  exists fields, p, w'. split; [exact Hrun|]. split; [exact Hids|].
  rewrite Hrest; [reflexivity|discriminate].
Defined.

Lemma send_and_delete_delegate_witness :
  heap sample_world !! 1%positive = Some sample_message ∧
  ∃ p q w1 w2,
    send 1%positive (JS.Str "ok") sample_world = (Normal p, w1) ∧
    delete_ 1%positive sample_world = (Normal q, w2) ∧
    outbox w1 = [messages_send "C1" (JS.Str "ok")] ∧
    outbox w2 = [messages_delete "C1" "M1"].
Proof.
  split; [reflexivity|].
  destruct (send_and_delete_delegate (H := sample_imports) sample_world
              1%positive sample_message (JS.Str "ok"))
    as (p & q & w1 & w2 & Hs & Hd & Ho1 & Ho2 & _); [reflexivity|].
  exists p, q, w1, w2. split; [exact Hs|]. split; [exact Hd|].
  split; [exact Ho1|exact Ho2].
Defined.

Lemma reactions_delegate_witness :
  heap sample_world !! 1%positive = Some sample_message ∧
  ∃ p q w1 w2,
    addReaction 1%positive (JS.Finite 42) sample_world = (Normal p, w1) ∧
    deleteReaction 1%positive (JS.Finite 42) sample_world = (Normal q, w2) ∧
    outbox w1 = [channelMessageReactionCreate "C1" "M1" (JS.Finite 42)] ∧
    outbox w2 = [channelMessageReactionDelete "C1" "M1" (JS.Finite 42)] ∧
    p (Some true) = JS.Fulfilled () ∧
    q (Some false) = JS.Rejected (JS.Str "failed").
Proof.
  split; [reflexivity|].
  destruct (reactions_delegate (H := sample_imports) sample_world
              1%positive sample_message (JS.Finite 42))
    as (p & q & w1 & w2 & Ha & Hd & Ho1 & Ho2 & _ & _ & Hok & _ & _ & Hno);
    [reflexivity|].
  exists p, q, w1, w2. split; [exact Ha|]. split; [exact Hd|].
  split; [exact Ho1|]. split; [exact Ho2|]. split.
  - apply (Hok (Some true) ()). reflexivity.
  - apply (Hno (Some false)). reflexivity.
Defined.

Lemma updates_of_separate_keys_commute_witness :
  independent ({["content" := JS.Str "hi"]} : gmap string JS.Value)
              {["updatedAt" := JS.Str "2022-01-01T00:05:00.000Z"]} ∧
  (_update 1%positive {["content" := JS.Str "hi"]}
     (_update 1%positive {["updatedAt" := JS.Str "2022-01-01T00:05:00.000Z"]}
        sample_world).2).2
  = (_update 1%positive {["updatedAt" := JS.Str "2022-01-01T00:05:00.000Z"]}
       (_update 1%positive {["content" := JS.Str "hi"]} sample_world).2).2.
Proof.
  assert (Hind : independent ({["content" := JS.Str "hi"]} : gmap string JS.Value)
                   {["updatedAt" := JS.Str "2022-01-01T00:05:00.000Z"]}).
  { unfold independent, recognized.
    repeat (constructor; [first [left; reflexivity | right; reflexivity]|]).
    constructor. }
  split; [exact Hind|].
  apply (updates_of_separate_keys_commute (H := sample_imports) sample_world
           1%positive _ _ Hind).
Defined.

Lemma accessors_are_stable_witness :
  heap sample_world !! 1%positive = Some sample_message ∧
  (url 1%positive
     (run [on 1%positive (call__update {["content" := JS.Str "hi"]});
           on 1%positive (call_edit (JS.Str "there"))] sample_world)).1
  = Normal "https://www.guilded.gg/chat/C1?messageId=M1".
Proof.
  split; [reflexivity|].
  destruct (accessors_are_stable (H := sample_imports) sample_world 1%positive
              sample_message
              [on 1%positive (call__update {["content" := JS.Str "hi"]});
               on 1%positive (call_edit (JS.Str "there"))])
    as (Hurl & _); [reflexivity|].
  rewrite Hurl. reflexivity.
Defined.

Lemma constructed_message_state_witness :
  (new_Message hello sample_client).1 = Normal 1%positive ∧
  ∃ m', heap (new_Message hello sample_client).2 !! 1%positive = Some m'
        ∧ content m' = JS.Str "hello"
        ∧ deleted m' = false
        ∧ createdByWebhookId m' = Some "W1".
Proof.
  split; [reflexivity|].
  destruct (constructed_message_state (H := sample_imports) hello sample_client
              1%positive)
    as (m' & Hm' & Hc & Hd & _ & _ & _ & _ & _ & _ & _ & _ & _ & _ & Hw & _);
    [reflexivity|].
  exists m'. split; [exact Hm'|]. split; [exact Hc|]. split; [exact Hd|exact Hw].
Defined.
